(** * cencori-go: request executor, error model and stream decoder

    A shallow embedding of [client.go] (the generic request executor
    [doRequest]) and of the chat service ([Create], [Stream] and the
    goroutine that decodes the event stream), together with the parts
    of the Go standard library they call: [strings], [bufio.ReadString]
    and [encoding/json].

    Go strings are byte sequences: they are modelled by [string], one
    [ascii] per byte. *)

From Stdlib Require Import Ascii DecimalString.
From stdpp Require Import gmap strings list.

Local Open Scope string_scope.
Local Open Scope Z_scope.

(** ** Results of fallible calls: Go's [(value, error)] pairs *)

Inductive result (E A : Type) : Type :=
| Ok (a : A)
| Fail (e : E).
Arguments Ok {E A} a.
Arguments Fail {E A} e.

#[global] Instance result_bind {E} : MBind (result E) :=
  fun A B (k : A -> result E B) (r : result E A) =>
    match r with
    | Ok a => k a
    | Fail e => Fail e
    end.

#[global] Instance result_ret {E} : MRet (result E) := fun A (a : A) => Ok a.

(** ** Package [strings] *)

Module strings.

Definition byte (n : N) : ascii := ascii_of_N n.

Definition code (c : ascii) : N := N_of_ascii c.

Definition LF : ascii := byte 10.

Definition HasPrefix (s prefix : string) : bool := String.prefix prefix s.

Fixpoint drop (n : nat) (s : string) : string :=
  match n, s with
  | O, _ => s
  | S n', String _ r => drop n' r
  | S _, EmptyString => EmptyString
  end.

Definition TrimPrefix (s prefix : string) : string :=
  if HasPrefix s prefix then drop (String.length prefix) s else s.

Fixpoint Contains (s substr : string) : bool :=
  HasPrefix s substr ||
  match s with
  | EmptyString => false
  | String _ r => Contains r substr
  end.

(** The six ASCII white-space bytes of [asciiSpace]. *)
Definition asciiSpace (c : ascii) : bool :=
  match code c with
  | 9%N | 10%N | 11%N | 12%N | 13%N | 32%N => true
  | _ => false
  end.

(** The white-space runes of [unicode.IsSpace] that take two bytes in
    UTF-8: U+0085 and U+00A0. *)
Definition space2 (c d : ascii) : bool :=
  ((code c =? 194) && ((code d =? 133) || (code d =? 160)))%N.

(** Those that take three bytes: U+1680, U+2000..U+200A, U+2028,
    U+2029, U+202F, U+205F and U+3000. *)
Definition space3 (c d e : ascii) : bool :=
  ((code c =? 225) && (code d =? 154) && (code e =? 128)
   || (code c =? 226) && (code d =? 128)
      && ((128 <=? code e) && (code e <=? 138)
          || (code e =? 168) || (code e =? 169) || (code e =? 175))
   || (code c =? 226) && (code d =? 129) && (code e =? 159)
   || (code c =? 227) && (code d =? 128) && (code e =? 128))%N.

Fixpoint TrimLeftSpace (s : string) : string :=
  match s with
  | EmptyString => EmptyString
  | String c r =>
      if asciiSpace c then TrimLeftSpace r
      else match r with
           | String d r2 =>
               if space2 c d then TrimLeftSpace r2
               else match r2 with
                    | String e r3 => if space3 c d e then TrimLeftSpace r3 else s
                    | EmptyString => s
                    end
           | EmptyString => s
           end
  end.

(** The same scan from the end; the argument is the reversed string,
    so a rune's bytes come last byte first. *)
Fixpoint TrimLeftSpace_rev (s : string) : string :=
  match s with
  | EmptyString => EmptyString
  | String c r =>
      if asciiSpace c then TrimLeftSpace_rev r
      else match r with
           | String d r2 =>
               if space2 d c then TrimLeftSpace_rev r2
               else match r2 with
                    | String e r3 => if space3 e d c then TrimLeftSpace_rev r3 else s
                    | EmptyString => s
                    end
           | EmptyString => s
           end
  end.

Definition TrimRightSpace (s : string) : string :=
  String.rev (TrimLeftSpace_rev (String.rev s)).

Definition TrimSpace (s : string) : string :=
  TrimRightSpace (TrimLeftSpace s).

End strings.

(** ** [bufio.Reader.ReadString] *)

Module bufio.

(** [ReadString s] cuts [s] after its first line feed: the line, with
    its delimiter, and what is left to read; [None] when [s] holds no
    line feed, where Go returns the bytes read so far and an error. *)
Fixpoint ReadString (s : string) : option (string * string) :=
  match s with
  | EmptyString => None
  | String c r =>
      if Ascii.eqb c strings.LF then Some (String c EmptyString, r)
      else match ReadString r with
           | Some (line, rest) => Some (String c line, rest)
           | None => None
           end
  end.

(** All the lines successive calls return, and the unterminated tail
    the failing call finds. *)
Fixpoint lines (s : string) : list string * string :=
  match s with
  | EmptyString => ([], EmptyString)
  | String c r =>
      let '(ls, tail) := lines r in
      if Ascii.eqb c strings.LF then (String c EmptyString :: ls, tail)
      else match ls with
           | [] => ([], String c tail)
           | l :: ls' => (String c l :: ls', tail)
           end
  end.

End bufio.

(** ** Package [io]: a response body *)

Module io.

(** What reading a body to its end finds: the bytes the peer
    delivered, then end of file ([None]) or a read error. *)
Record Body := { data : string; failure : option string }.

Definition ReadAll (b : Body) : result string string :=
  match failure b with
  | None => Ok (data b)
  | Some e => Fail e
  end.

End io.

(** ** Package [encoding/json] *)

Module json.

Import strings.

#[warnings="-register-all"]
Inductive value :=
| Null
| Bool (b : bool)
| Number (literal : string)
| Str (s : string)
| Array (elements : list value)
| Object (members : list (string * value)).

(** A double quote is written as an apostrophe in the literals of this
    file; [js] puts the quotes back. *)
Definition DQ : ascii := byte 34.

Fixpoint js (s : string) : string :=
  match s with
  | EmptyString => EmptyString
  | String c r => String (if Ascii.eqb c (byte 39) then DQ else c) (js r)
  end.

Definition isSpace (c : ascii) : bool :=
  match code c with
  | 32%N | 9%N | 13%N | 10%N => true
  | _ => false
  end.

Fixpoint skipSpace (s : string) : string :=
  match s with
  | String c r => if isSpace c then skipSpace r else s
  | EmptyString => EmptyString
  end.

Definition isDigit (c : ascii) : bool := ((48 <=? code c) && (code c <=? 57))%N.

Fixpoint digits (s : string) : string * string :=
  match s with
  | String c r =>
      if isDigit c then let '(ds, rest) := digits r in (String c ds, rest)
      else (EmptyString, s)
  | EmptyString => (EmptyString, EmptyString)
  end.

(** A number literal: an optional minus sign, [0] or a digit from 1 to 9
    and more digits, an optional fraction, an optional exponent. *)
Definition scanNumber (s : string) : option (string * string) :=
  let '(sign, s1) :=
    match s with
    | String c r => if Ascii.eqb c "-" then ("-", r) else (EmptyString, s)
    | EmptyString => (EmptyString, s)
    end in
  match s1 with
  | String c r =>
      if isDigit c then
        let '(int, s2) :=
          if Ascii.eqb c "0" then ("0", r)
          else let '(ds, rest) := digits r in (String c ds, rest) in
        let frac :=
          match s2 with
          | String d r2 =>
              if Ascii.eqb d "." then
                let '(ds, rest) := digits r2 in
                if String.eqb ds EmptyString then None
                else Some (String d ds, rest)
              else Some (EmptyString, s2)
          | EmptyString => Some (EmptyString, s2)
          end in
        match frac with
        | None => None
        | Some (fr, s3) =>
            match s3 with
            | String e r3 =>
                if Ascii.eqb e "e" || Ascii.eqb e "E" then
                  let '(esign, s4) :=
                    match r3 with
                    | String g r4 =>
                        if Ascii.eqb g "+" || Ascii.eqb g "-"
                        then (String g EmptyString, r4)
                        else (EmptyString, r3)
                    | EmptyString => (EmptyString, r3)
                    end in
                  let '(ds, rest) := digits s4 in
                  if String.eqb ds EmptyString then None
                  else Some (sign +:+ int +:+ fr +:+ String e esign +:+ ds, rest)
                else Some (sign +:+ int +:+ fr, s3)
            | EmptyString => Some (sign +:+ int +:+ fr, s3)
            end
        end
      else None
  | EmptyString => None
  end.

(** *** Strings: escapes and UTF-8 *)

Definition hexDigit (c : ascii) : option N :=
  let n := code c in
  if ((48 <=? n) && (n <=? 57))%N then Some (n - 48)%N
  else if ((97 <=? n) && (n <=? 102))%N then Some (n - 87)%N
  else if ((65 <=? n) && (n <=? 70))%N then Some (n - 55)%N
  else None.

(** [getu4]: the code unit of [\uXXXX] at the head of [s]. *)
Definition getu4 (s : string) : option (N * string) :=
  match s with
  | String b (String u (String h1 (String h2 (String h3 (String h4 r))))) =>
      if Ascii.eqb b "\" && Ascii.eqb u "u" then
        match hexDigit h1, hexDigit h2, hexDigit h3, hexDigit h4 with
        | Some a, Some b, Some c, Some d =>
            Some (a * 4096 + b * 256 + c * 16 + d, r)%N
        | _, _, _, _ => None
        end
      else None
  | _ => None
  end.

Definition isSurrogate (r : N) : bool := ((55296 <=? r) && (r <? 57344))%N.

(** [utf16.DecodeRune]; [None] stands for the replacement rune. *)
Definition utf16_DecodeRune (r1 r2 : N) : option N :=
  if ((55296 <=? r1) && (r1 <? 56320) && (56320 <=? r2) && (r2 <? 57344))%N
  then Some ((r1 - 55296) * 1024 + (r2 - 56320) + 65536)%N
  else None.

Definition RuneError : N := 65533%N.

Definition EncodeRune (r : N) (tail : string) : string :=
  if (r <? 128)%N then String (byte r) tail
  else if (r <? 2048)%N then
    String (byte (192 + r / 64)) (String (byte (128 + r mod 64)) tail)
  else if (r <? 65536)%N then
    String (byte (224 + r / 4096))
      (String (byte (128 + (r / 64) mod 64))
         (String (byte (128 + r mod 64)) tail))
  else
    String (byte (240 + r / 262144))
      (String (byte (128 + (r / 4096) mod 64))
         (String (byte (128 + (r / 64) mod 64))
            (String (byte (128 + r mod 64)) tail))).

Definition between (lo hi : N) (c : ascii) : bool :=
  ((lo <=? code c) && (code c <=? hi))%N.

(** The length of the well-formed UTF-8 sequence at the head of [s],
    or [0] when its first byte starts none ([utf8.DecodeRune] then
    yields the replacement rune and a width of one byte). *)
Definition runeLen (s : string) : nat :=
  match s with
  | String c r =>
      if (code c <? 128)%N then 1%nat
      else match r with
      | String d r2 =>
          if between 194 223 c && between 128 191 d then 2%nat
          else match r2 with
          | String e r3 =>
              if (Ascii.eqb c (byte 224) && between 160 191 d
                  || between 225 236 c && between 128 191 d
                  || Ascii.eqb c (byte 237) && between 128 159 d
                  || between 238 239 c && between 128 191 d)
                 && between 128 191 e then 3%nat
              else match r3 with
              | String f _ =>
                  if (Ascii.eqb c (byte 240) && between 144 191 d
                      || between 241 243 c && between 128 191 d
                      || Ascii.eqb c (byte 244) && between 128 143 d)
                     && between 128 191 e && between 128 191 f then 4%nat
                  else 0%nat
              | EmptyString => 0%nat
              end
          | EmptyString => 0%nat
          end
      | EmptyString => 0%nat
      end
  | EmptyString => 0%nat
  end.

Fixpoint take (n : nat) (s : string) : string :=
  match n, s with
  | S n', String c r => String c (take n' r)
  | _, _ => EmptyString
  end.

Definition consString (pre : string) (r : option (string * string))
  : option (string * string) :=
  match r with
  | Some (s, rest) => Some (pre +:+ s, rest)
  | None => None
  end.

(** [unquote]: the text after an opening quote, up to the closing
    one, with escapes replaced and ill-formed UTF-8 coerced to the
    replacement rune. *)
Fixpoint scanString (fuel : nat) (s : string) : option (string * string) :=
  match fuel with
  | O => None
  | S fuel =>
      match s with
      | EmptyString => None
      | String c r =>
          if Ascii.eqb c DQ then Some (EmptyString, r)
          else if Ascii.eqb c "\" then
            match r with
            | String e r2 =>
                let simple (b : N) := consString (String (byte b) EmptyString) (scanString fuel r2) in
                if Ascii.eqb e DQ then simple 34%N
                else if Ascii.eqb e "\" then simple 92%N
                else if Ascii.eqb e "/" then simple 47%N
                else if Ascii.eqb e "b" then simple 8%N
                else if Ascii.eqb e "f" then simple 12%N
                else if Ascii.eqb e "n" then simple 10%N
                else if Ascii.eqb e "r" then simple 13%N
                else if Ascii.eqb e "t" then simple 9%N
                else if Ascii.eqb e "u" then
                  match getu4 s with
                  | Some (rr, r6) =>
                      if isSurrogate rr then
                        match getu4 r6 with
                        | Some (rr1, r12) =>
                            match utf16_DecodeRune rr rr1 with
                            | Some dec => consString (EncodeRune dec EmptyString) (scanString fuel r12)
                            | None => consString (EncodeRune RuneError EmptyString) (scanString fuel r6)
                            end
                        | None => consString (EncodeRune RuneError EmptyString) (scanString fuel r6)
                        end
                      else consString (EncodeRune rr EmptyString) (scanString fuel r6)
                  | None => None
                  end
                else None
            | EmptyString => None
            end
          else if (code c <? 32)%N then None
          else match runeLen s with
               | O => consString (EncodeRune RuneError EmptyString) (scanString fuel r)
               | n => consString (take n s) (scanString fuel (drop n s))
               end
      end
  end.

(** *** Values *)

Fixpoint parseValue (fuel : nat) (s : string) : option (value * string) :=
  match fuel with
  | O => None
  | S fuel =>
      match skipSpace s with
      | EmptyString => None
      | String c r as s' =>
          if Ascii.eqb c "{" then
            match skipSpace r with
            | String d r2 =>
                if Ascii.eqb d "}" then Some (Object [], r2)
                else match parseMembers fuel (skipSpace r) with
                     | Some (ms, rest) => Some (Object ms, rest)
                     | None => None
                     end
            | EmptyString => None
            end
          else if Ascii.eqb c "[" then
            match skipSpace r with
            | String d r2 =>
                if Ascii.eqb d "]" then Some (Array [], r2)
                else match parseElements fuel r with
                     | Some (vs, rest) => Some (Array vs, rest)
                     | None => None
                     end
            | EmptyString => None
            end
          else if Ascii.eqb c DQ then
            match scanString (S (String.length r)) r with
            | Some (str, rest) => Some (Str str, rest)
            | None => None
            end
          else if HasPrefix s' "true" then Some (Bool true, drop 4 s')
          else if HasPrefix s' "false" then Some (Bool false, drop 5 s')
          else if HasPrefix s' "null" then Some (Null, drop 4 s')
          else match scanNumber s' with
               | Some (lit, rest) => Some (Number lit, rest)
               | None => None
               end
      end
  end

(** The elements of an array after its opening bracket, up to and
    with the closing one. *)
with parseElements (fuel : nat) (s : string) : option (list value * string) :=
  match fuel with
  | O => None
  | S fuel =>
      match parseValue fuel s with
      | Some (v, rest) =>
          match skipSpace rest with
          | String c r =>
              if Ascii.eqb c "," then
                match parseElements fuel r with
                | Some (vs, rest') => Some (v :: vs, rest')
                | None => None
                end
              else if Ascii.eqb c "]" then Some ([v], r)
              else None
          | EmptyString => None
          end
      | None => None
      end
  end

(** The members of an object; [s] starts at the quote of a key. *)
with parseMembers (fuel : nat) (s : string) : option (list (string * value) * string) :=
  match fuel with
  | O => None
  | S fuel =>
      match s with
      | String q r =>
          if Ascii.eqb q DQ then
            match scanString (S (String.length r)) r with
            | Some (key, rest) =>
                match skipSpace rest with
                | String c r2 =>
                    if Ascii.eqb c ":" then
                      match parseValue fuel r2 with
                      | Some (v, rest2) =>
                          match skipSpace rest2 with
                          | String d r3 =>
                              if Ascii.eqb d "," then
                                match parseMembers fuel (skipSpace r3) with
                                | Some (ms, rest3) => Some ((key, v) :: ms, rest3)
                                | None => None
                                end
                              else if Ascii.eqb d "}" then Some ([(key, v)], r3)
                              else None
                          | EmptyString => None
                          end
                      | None => None
                      end
                    else None
                | EmptyString => None
                end
            | None => None
            end
          else None
      | EmptyString => None
      end
  end.

Definition parseFuel (s : string) : nat := (2 * String.length s + 4)%nat.

(** [checkValid] and the scan of [Unmarshal]: one value, white space
    around it and nothing else. *)
Definition parse (s : string) : result string value :=
  match parseValue (parseFuel s) s with
  | Some (v, rest) =>
      match skipSpace rest with
      | EmptyString => Ok v
      | String _ _ => Fail "invalid character after top-level value"
      end
  | None => Fail "invalid character or unexpected end of JSON input"
  end.

(** [Decoder.Decode] on a fresh decoder: the first value of the body.
    An object or an array ends at its closing bracket; any other value
    ends at the byte after it, which has to be white space, or at the
    end of the file. *)
Definition readValue (b : io.Body) : result string value :=
  match parseValue (parseFuel (io.data b)) (io.data b) with
  | Some (v, rest) =>
      match v with
      | Object _ | Array _ => Ok v
      | _ =>
          match rest with
          | String c _ =>
              if isSpace c then Ok v
              else Fail "invalid character after top-level value"
          | EmptyString =>
              match io.failure b with
              | None => Ok v
              | Some e => Fail e
              end
          end
      end
  | None =>
      match io.failure b with
      | Some e => Fail e
      | None => Fail "invalid character or unexpected EOF"
      end
  end.

(** *** Decoding into Go values *)

(** What [Unmarshal] does with a value of the target type [T]: [zero]
    is Go's zero value, [decode v cur] stores [v] into a variable that
    holds [cur]. *)
Class Unmarshaler (T : Type) := {
  zero : T;
  decode : value -> T -> result string T
}.

Class Marshaler (T : Type) := Marshal : T -> result string string.

Definition Unmarshal {T} `{!Unmarshaler T} (data : string) : result string T :=
  v ← parse data; decode v zero.

Definition Decode {T} `{!Unmarshaler T} (b : io.Body) : result string T :=
  v ← readValue b; decode v zero.

Definition decodeString (v : value) (cur : string) : result string string :=
  match v with
  | Str s => Ok s
  | Null => Ok cur
  | _ => Fail "json: cannot unmarshal into Go value of type string"
  end.

Fixpoint digitsValue (s : string) (acc : Z) : option Z :=
  match s with
  | EmptyString => Some acc
  | String c r =>
      if isDigit c then digitsValue r (10 * acc + Z.of_N (code c - 48)) else None
  end.

(** A number into an [int]: [strconv.ParseInt] in base 10 and 64
    bits, so a literal with a fraction or an exponent is refused. *)
Definition decodeInt (v : value) (cur : Z) : result string Z :=
  match v with
  | Number lit =>
      let parsed :=
        match lit with
        | String c r =>
            if Ascii.eqb c "-" then Z.opp <$> digitsValue r 0 else digitsValue lit 0
        | EmptyString => None
        end in
      match parsed with
      | Some n =>
          if (- 2 ^ 63 <=? n) && (n <? 2 ^ 63) then Ok n
          else Fail "json: cannot unmarshal number into Go value of type int"
      | None => Fail "json: cannot unmarshal number into Go value of type int"
      end
  | Null => Ok cur
  | _ => Fail "json: cannot unmarshal into Go value of type int"
  end.

(** [foldName]: keys match field names exactly or under simple case
    folding; the only runes outside ASCII that fold to ASCII letters
    are U+017F (to S) and U+212A (to K). *)
Fixpoint foldName (s : string) : string :=
  match s with
  | EmptyString => EmptyString
  | String c r =>
      if between 97 122 c then String (byte (code c - 32)) (foldName r)
      else match r with
           | String d r2 =>
               if Ascii.eqb c (byte 197) && Ascii.eqb d (byte 191)
               then String "S" (foldName r2)
               else match r2 with
                    | String e r3 =>
                        if Ascii.eqb c (byte 226) && Ascii.eqb d (byte 132)
                           && Ascii.eqb e (byte 170)
                        then String "K" (foldName r3)
                        else String c (foldName r)
                    | EmptyString => String c (foldName r)
                    end
           | EmptyString => String c EmptyString
           end
  end.

Definition field (T : Type) : Type := string * (value -> T -> result string T).

Definition findField {T} (key : string) (fields : list (field T)) : option (field T) :=
  match List.find (fun f => String.eqb (fst f) key) fields with
  | Some f => Some f
  | None => List.find (fun f => String.eqb (foldName (fst f)) (foldName key)) fields
  end.

(** The members of an object are stored in the order they come; a key
    no field answers to is skipped. *)
Fixpoint decodeMembers {T} (fields : list (field T)) (ms : list (string * value))
    (cur : T) : result string T :=
  match ms with
  | [] => Ok cur
  | (key, v) :: ms' =>
      match findField key fields with
      | Some (_, store) => cur' ← store v cur; decodeMembers fields ms' cur'
      | None => decodeMembers fields ms' cur
      end
  end.

Definition decodeStruct {T} (fields : list (field T)) (v : value) (cur : T)
  : result string T :=
  match v with
  | Object ms => decodeMembers fields ms cur
  | Null => Ok cur
  | _ => Fail "json: cannot unmarshal into Go value of struct type"
  end.

(** Element [i] of an array is stored into element [i] of the slice
    when there is one, into a zero value otherwise. *)
Fixpoint decodeElements {T} (z : T) (store : value -> T -> result string T)
    (vs : list value) (cur : list T) : result string (list T) :=
  match vs with
  | [] => Ok []
  | v :: vs' =>
      x ← store v (List.hd z cur);
      xs ← decodeElements z store vs' (List.tl cur);
      Ok (x :: xs)
  end.

Definition decodeSlice {T} (z : T) (store : value -> T -> result string T)
    (v : value) (cur : list T) : result string (list T) :=
  match v with
  | Array vs => decodeElements z store vs cur
  | Null => Ok []
  | _ => Fail "json: cannot unmarshal into Go value of slice type"
  end.

End json.

(** ** The error model *)

(** The sentinel values the tests name. *)
Inductive sentinel :=
| ErrInvalidApiKey
| ErrRateLimited
| ErrInsufficientCredits
| ErrTierRestricted
| ErrInvalidModel
| ErrProvider
| ErrContentFiltered.

#[global] Instance sentinel_eq_dec : EqDecision sentinel.
Proof. solve_decision. Defined.

(** An error value with no cause of its own: one of the sentinels, or
    a value made elsewhere ([errors.New], package [json], the
    transport), known by its message. *)
Inductive cause :=
| Sentinel (s : sentinel)
| Foreign (msg : string).

#[global] Instance cause_eq_dec : EqDecision cause.
Proof. solve_decision. Defined.

Module APIError.

(** Modelled from the spec: the declaration of [APIError] is not among
    the sources. Data model: status code, machine code, human message
    and an optional wrapped sentinel; the tests name the fields
    [StatusCode], [Code], [Message] and [Err]. *)
Record t := mk {
  StatusCode : Z;
  Code : string;
  Message : string;
  Err : option cause
}.

Definition withStatusCode (e : t) (status : Z) : t :=
  mk status (Code e) (Message e) (Err e).

Definition withCode (e : t) (c : string) : t :=
  mk (StatusCode e) c (Message e) (Err e).

Definition withMessage (e : t) (m : string) : t :=
  mk (StatusCode e) (Code e) m (Err e).

Definition withErr (e : t) (w : option cause) : t :=
  mk (StatusCode e) (Code e) (Message e) w.

(** Modelled from the spec: the sentinel table, a fixed mapping from
    machine code strings to sentinel values; its entries are the pairs
    of [TestAPIError_fillSentinel]. *)
Definition sentinelErrors : gmap string sentinel :=
  list_to_map
    [("INVALID_API_KEY", ErrInvalidApiKey);
     ("RATE_LIMIT_EXCEEDED", ErrRateLimited);
     ("INSUFFICIENT_CREDITS", ErrInsufficientCredits);
     ("TIER_RESTRICTED", ErrTierRestricted);
     ("INVALID_MODEL", ErrInvalidModel);
     ("PROVIDER_ERROR", ErrProvider);
     ("CONTENT_FILTERED", ErrContentFiltered)].

(** Modelled from the spec: [fillSentinel] looks up [code] in the
    sentinel table and sets [wrapped] if found; a no-op for
    unrecognized codes. *)
Definition fillSentinel (e : t) : t :=
  match sentinelErrors !! Code e with
  | Some s => withErr e (Some (Sentinel s))
  | None => e
  end.

(** Modelled from the spec: [unwrap] returns the wrapped sentinel (or
    the explicitly attached cause). *)
Definition Unwrap (e : t) : option cause := Err e.

Definition itoa (n : Z) : string := NilZero.string_of_int (Z.to_int n).

Definition namespace : string := "cencori".

(** Modelled from the spec: [format], the method [Error]; the
    namespace is the one [TestAPIError_Error] expects. *)
Definition Error (e : t) : string :=
  if negb (String.eqb (Code e) EmptyString) then
    namespace +:+ ": " +:+ Message e
      +:+ " (code: " +:+ Code e +:+ ", status: " +:+ itoa (StatusCode e) +:+ ")"
  else
    namespace +:+ ": " +:+ Message e
      +:+ " (status: " +:+ itoa (StatusCode e) +:+ ")".

(** Modelled from the spec: the wire shape of an error body, an object
    with the members [error] (the message) and [code]; neither the
    status code nor the wrapped error is read from the body. *)
#[global] Instance unmarshaler : json.Unmarshaler t := {|
  json.zero := mk 0 EmptyString EmptyString None;
  json.decode :=
    json.decodeStruct
      [("code", fun v e => c ← json.decodeString v (Code e); Ok (withCode e c));
       ("error", fun v e => m ← json.decodeString v (Message e); Ok (withMessage e m))]
|}.

End APIError.

(** Go's [error] values: an [*APIError], a value made by [fmt.Errorf]
    with the verb [%w], or a value with no cause. *)
Inductive error :=
| APIErr (e : APIError.t)
| Errorf (prefix : string) (err : error)
| Leaf (c : cause).

Module errors.

(** [errors.Is err target] for a [target] with no cause: walk the chain
    of [Unwrap], comparing by identity. A pointer to an [APIError] is
    never identical to such a target. *)
Fixpoint Is (err : error) (target : cause) : bool :=
  match err with
  | APIErr e =>
      match APIError.Unwrap e with
      | Some c => bool_decide (c = target)
      | None => false
      end
  | Errorf _ inner => Is inner target
  | Leaf c => bool_decide (c = target)
  end.

(** [errors.As err &apiErr] with [apiErr] of type [*APIError]. *)
Fixpoint AsAPIError (err : error) : option APIError.t :=
  match err with
  | APIErr e => Some e
  | Errorf _ inner => AsAPIError inner
  | Leaf _ => None
  end.

End errors.

(** ** Packages [context] and [net/http] *)

Module context.

(** A context as a call sees it: what [ctx.Err()] returns then. *)
Record Context := { Err : option string }.

Definition Background : Context := {| Err := None |}.

End context.

Module http.

Definition StatusOK : Z := 200.

(** The statuses the specification calls success: 2xx. *)
Definition success2xx (status : Z) : bool := (200 <=? status) && (status <? 300).

Record Request := {
  Method : string;
  URL : string;
  Header : gmap string string;
  Body : option string
}.

Record Response := {
  StatusCode : Z;
  RespBody : io.Body
}.

Definition Header_Set (req : Request) (key val : string) : Request :=
  {| Method := Method req; URL := URL req;
     Header := <[key := val]> (Header req); Body := Body req |}.

(** The network a client talks to: [NewRequest method url] is the error
    [http.NewRequestWithContext] finds in its arguments, if any, and
    [Do ctx req] is the outcome of the client's method [Do], a response or a
    transport error. *)
Record Client := {
  NewRequest : string -> string -> option string;
  Do : context.Context -> Request -> result string Response
}.

Definition NewRequestWithContext (net : Client) (ctx : context.Context)
    (method url : string) (body : option string) : result string Request :=
  match NewRequest net method url with
  | Some e => Fail e
  | None => Ok {| Method := method; URL := url; Header := ∅; Body := body |}
  end.

End http.

(** ** [client.go] *)

Record Client := {
  ApiKey : string;
  BaseURL : string;
  httpClient : http.Client
}.

(** [doRequest] up to the call of [Do]: the response the transport
    gives, or the local or transport error the call ends with. *)
Definition exchange {Req : Type} `{!json.Marshaler Req}
    (c : Client) (ctx : context.Context) (method path : string) (body : option Req)
  : result error http.Response :=
  let url := BaseURL c +:+ path in
  bodyReader ←
    match body with
    | Some b =>
        match json.Marshal b with
        | Fail err => Fail (Errorf "marshal request: " (Leaf (Foreign err)))
        | Ok jsonData => Ok (Some jsonData)
        end
    | None => Ok None
    end;
  req ←
    match http.NewRequestWithContext (httpClient c) ctx method url bodyReader with
    | Fail err => Fail (Errorf "create request: " (Leaf (Foreign err)))
    | Ok req => Ok req
    end;
  let req := http.Header_Set req "Content-Type" "application/json" in
  let req := http.Header_Set req "CENCORI_API_KEY" (ApiKey c) in
  match http.Do (httpClient c) ctx req with
  | Fail err => Fail (Errorf "execute request: " (Leaf (Foreign err)))
  | Ok resp => Ok resp
  end.

(** [doRequest] from there on: what it returns for the response.
    [shape] is what [json.Unmarshal] does with a target of type
    [APIError]; it follows from the struct tags of [APIError], whose
    declaration is not among the sources. *)
Definition respond {Resp : Type} `{!json.Unmarshaler Resp}
    {shape : json.Unmarshaler APIError.t} (resp : http.Response)
  : result error Resp :=
  if negb (http.StatusCode resp =? http.StatusOK) then
    match io.ReadAll (http.RespBody resp) with
    | Fail err =>
        Fail (APIErr (APIError.mk (http.StatusCode resp) "READ_ERROR"
                        ("failed to read response body: " +:+ err) None))
    | Ok body =>
        match @json.Unmarshal APIError.t shape body with
        | Fail _ =>
            Fail (APIErr (APIError.mk (http.StatusCode resp) "UNKNOWN" body None))
        | Ok apiErr =>
            Fail (APIErr (APIError.withStatusCode apiErr (http.StatusCode resp)))
        end
    end
  else
    match json.Decode (http.RespBody resp) with
    | Fail err => Fail (Errorf "decode response: " (Leaf (Foreign err)))
    | Ok result => Ok result
    end.

Definition doRequest {Req Resp : Type} `{!json.Marshaler Req} `{!json.Unmarshaler Resp}
    {shape : json.Unmarshaler APIError.t}
    (c : Client) (ctx : context.Context) (method path : string) (body : option Req)
  : result error Resp :=
  resp ← exchange c ctx method path body;
  respond (shape := shape) resp.

(** ** The chat service *)

Record Message := { Role : string; Content : string }.

(** A [float64], by its IEEE 754 bit pattern. *)
Definition float64 : Type := Z.

Module ChatParams.

(** The declaration of [ChatParams] is not among the sources; its
    fields are those [Completions], [Create] and [Stream] name. *)
Record t := mk {
  Model : string;
  Messages : list Message;
  Temperature : option float64;
  MaxTokens : option Z;
  Stream : bool
}.

Definition withStream (p : t) (b : bool) : t :=
  mk (Model p) (Messages p) (Temperature p) (MaxTokens p) b.

End ChatParams.

(** The caller's [ChatParams] values live in a store; a [*ChatParams]
    is [nil] or the address of one of them. *)
Definition loc : Type := positive.

Definition pointer : Type := option loc.

(** What a call does: it returns, or it panics (a [nil] dereference). *)
Inductive outcome (A : Type) : Type :=
| Returns (a : A)
| Panics.
Arguments Returns {A} a.
Arguments Panics {A}.

(** Modelled from the spec: [handleError] is not among the sources.
    Request executor, step 4: read the full response body; if reading
    fails, code [READ_ERROR]; if the body does not decode into the API
    Error shape, code [UNKNOWN] and the raw body as the message; the
    status code field is always overwritten with the real HTTP status
    code and the sentinel table is consulted to populate [wrapped]. *)
Definition handleError (resp : http.Response) : error :=
  match io.ReadAll (http.RespBody resp) with
  | Fail err =>
      APIErr (APIError.mk (http.StatusCode resp) "READ_ERROR"
                ("failed to read response body: " +:+ err) None)
  | Ok body =>
      match json.Unmarshal (T := APIError.t) body with
      | Fail _ => APIErr (APIError.mk (http.StatusCode resp) "UNKNOWN" body None)
      | Ok apiErr =>
          APIErr (APIError.fillSentinel
                    (APIError.withStatusCode apiErr (http.StatusCode resp)))
      end
  end.

Module StreamChunk.

(** The declaration of [StreamChunk] is not among the sources: a chunk
    is the payload [json.Unmarshal] fills, of a type [P] left open
    here, and the field [Err], which no JSON text sets. *)
Record t (P : Type) := mk {
  Payload : P;
  Err : option error
}.
Arguments mk {P} Payload Err.
Arguments Payload {P} _.
Arguments Err {P} _.

End StreamChunk.

Record ChatService := { client : Client }.

Section Chat.

Context {ChatResponse : Type} `{!json.Unmarshaler ChatResponse}.
Context `{!json.Marshaler ChatParams.t}.
Context {P : Type} `{!json.Unmarshaler P}.

Definition Create (s : ChatService) (ctx : context.Context) (params : pointer)
    (h : gmap loc ChatParams.t)
  : gmap loc ChatParams.t * outcome (result error ChatResponse) :=
  match params with
  | None => (h, Panics)
  | Some l =>
      match h !! l with
      | None => (h, Panics)
      | Some p =>
          let h' := <[l := ChatParams.withStream p false]> h in
          (h', Returns (doRequest (client s) ctx "POST" "/api/ai/chat" (h' !! l)))
      end
  end.

(** What [Stream] hands to its goroutine when it returns a channel:
    the body of the response. *)
Definition Stream (s : ChatService) (ctx : context.Context) (params : pointer)
    (h : gmap loc ChatParams.t)
  : gmap loc ChatParams.t * outcome (result error io.Body) :=
  match params with
  | None => (h, Panics)
  | Some l =>
      match h !! l with
      | None => (h, Panics)
      | Some p =>
          let p' := ChatParams.withStream p true in
          let h' := <[l := p']> h in
          (h', Returns (
            jsonData ←
              match json.Marshal p' with
              | Fail err => Fail (Errorf "marshal request: " (Leaf (Foreign err)))
              | Ok jsonData => Ok jsonData
              end;
            req ←
              match http.NewRequestWithContext (httpClient (client s)) ctx "POST"
                      (BaseURL (client s) +:+ "/api/ai/chat") (Some jsonData) with
              | Fail err => Fail (Errorf "create request: " (Leaf (Foreign err)))
              | Ok req => Ok req
              end;
            let req := http.Header_Set req "Content-Type" "application/json" in
            let req := http.Header_Set req "CENCORI_API_KEY" (ApiKey (client s)) in
            let req := http.Header_Set req "Accept" "text/event-stream" in
            resp ←
              match http.Do (httpClient (client s)) ctx req with
              | Fail err => Fail (Errorf "execute request: " (Leaf (Foreign err)))
              | Ok resp => Ok resp
              end;
            if negb (http.StatusCode resp =? http.StatusOK)
            then Fail (handleError resp)
            else Ok (http.RespBody resp)))
      end
  end.

(** *** The goroutine that decodes the stream *)

(** What one turn of the loop does with a line it has read. *)
Inductive action :=
| Skip                                  (* continue *)
| Done                                  (* return *)
| Emit (chunk : StreamChunk.t P)        (* chunks <- chunk *)
| Final (chunk : StreamChunk.t P).      (* chunks <- chunk; return *)

Definition errorMarker : string := json.js "'error':".

(** The error frame a data payload is taken for, if any. *)
Definition errorFrame (data : string) : option APIError.t :=
  if strings.Contains data errorMarker then
    match json.Unmarshal (T := APIError.t) data with
    | Ok apiErr => Some (APIError.fillSentinel apiErr)
    | Fail _ => None
    end
  else None.

Definition handleLine (line : string) : action :=
  let line := strings.TrimSpace line in
  if negb (strings.HasPrefix line "data: ") then Skip
  else
    let data := strings.TrimPrefix line "data: " in
    if String.eqb data "[DONE]" then Done
    else
      match errorFrame data with
      | Some apiErr => Final (StreamChunk.mk json.zero (Some (APIErr apiErr)))
      | None =>
          match json.Unmarshal (T := P) data with
          | Fail err =>
              Final (StreamChunk.mk json.zero
                       (Some (Errorf "unmarshal chunk: " (Leaf (Foreign err)))))
          | Ok chunk => Emit (StreamChunk.mk chunk None)
          end
      end.

(** The turn in which [ReadString] fails: [ctx] is the context as it
    is then, [failure] the error, [None] for [io.EOF]. *)
Definition readFailed (ctx : context.Context) (failure : option string)
  : list (StreamChunk.t P) :=
  match context.Err ctx with
  | Some _ => []
  | None =>
      match failure with
      | None => []
      | Some err =>
          [StreamChunk.mk json.zero (Some (Errorf "stream read: " (Leaf (Foreign err))))]
      end
  end.

(** The chunks sent while the lines [ls] are read, one turn a line;
    [last] is what the turn after them sends. *)
Fixpoint readLines (ls : list string) (last : list (StreamChunk.t P))
  : list (StreamChunk.t P) :=
  match ls with
  | [] => last
  | line :: ls' =>
      match handleLine line with
      | Skip => readLines ls' last
      | Done => []
      | Emit chunk => chunk :: readLines ls' last
      | Final chunk => [chunk]
      end
  end.

(** The chunks the goroutine sends before it closes the channel, when
    the body delivers [io.data body] and then fails with
    [io.failure body], and the consumer receives every chunk. *)
Definition reader (body : io.Body) (ctx : context.Context) : list (StreamChunk.t P) :=
  readLines (bufio.lines (io.data body)).1 (readFailed ctx (io.failure body)).

(** *** The goroutine, the watcher and the consumer, interleaved *)

(** What follows the lines of the body: it ends, with [io.EOF]
    ([Ends None]) or a read error, or the peer keeps the connection
    open and sends nothing more. *)
Inductive ending :=
| Ends (failure : option string)
| Stalls.

Inductive goroutine :=
| Reading                                           (* in [ReadString] *)
| Sending (chunk : StreamChunk.t P) (again : bool)  (* in [chunks <- chunk] *)
| Exited.

Record state := {
  cancelled : bool;                  (* [ctx.Done()] is closed *)
  closed : bool;                     (* [resp.Body.Close()] has run *)
  watching : bool;                   (* the watcher waits on [ctx.Done()] *)
  pending : list string;             (* lines not read yet *)
  bodyEnd : ending;
  rd : goroutine;
  received : list (StreamChunk.t P); (* what the consumer has got *)
  chanClosed : bool                  (* [close(chunks)] has run *)
}.

Definition start (body : list string) (e : ending) : state :=
  {| cancelled := false; closed := false; watching := true;
     pending := body; bodyEnd := e; rd := Reading;
     received := []; chanClosed := false |}.

Definition ctxOf (s : state) : context.Context :=
  {| context.Err := if cancelled s then Some "context canceled" else None |}.

(** The deferred calls of the goroutine: the body is closed, then
    the channel. *)
Definition exits (s : state) : state :=
  {| cancelled := cancelled s; closed := true; watching := watching s;
     pending := pending s; bodyEnd := bodyEnd s; rd := Exited;
     received := received s; chanClosed := true |}.

Definition becomes (s : state) (ls : list string) (g : goroutine) : state :=
  {| cancelled := cancelled s; closed := closed s; watching := watching s;
     pending := ls; bodyEnd := bodyEnd s; rd := g;
     received := received s; chanClosed := chanClosed s |}.

Definition afterLine (s : state) (line : string) (ls : list string) : state :=
  match handleLine line with
  | Skip => becomes s ls Reading
  | Done => exits (becomes s ls Reading)
  | Emit chunk => becomes s ls (Sending chunk true)
  | Final chunk => becomes s ls (Sending chunk false)
  end.

Definition afterFailure (s : state) (failure : option string) : state :=
  match readFailed (ctxOf s) failure with
  | [] => exits s
  | chunk :: _ => becomes s (pending s) (Sending chunk false)
  end.

Definition afterReceive (s : state) (chunk : StreamChunk.t P) (again : bool) : state :=
  let s' :=
    {| cancelled := cancelled s; closed := closed s; watching := watching s;
       pending := pending s; bodyEnd := bodyEnd s; rd := Reading;
       received := received s ++ [chunk]; chanClosed := chanClosed s |} in
  if again then s' else exits s'.

Inductive label :=
| Cancels
| WatcherCloses
| ReadsLine (line : string)
| ReadFails (failure : option string)
| Receives.

(** When [ReadString] can fail: the body has ended, it has been
    closed, or the transport has seen the context cancelled. *)
Inductive mayFail (s : state) : option string -> Prop :=
| fail_end failure :
    pending s = [] -> bodyEnd s = Ends failure -> mayFail s failure
| fail_closed :
    closed s = true -> mayFail s (Some "http: read on closed response body")
| fail_cancelled :
    cancelled s = true -> mayFail s (Some "context canceled").

Inductive step : label -> state -> state -> Prop :=
| step_cancel s :
    step Cancels s
      {| cancelled := true; closed := closed s; watching := watching s;
         pending := pending s; bodyEnd := bodyEnd s; rd := rd s;
         received := received s; chanClosed := chanClosed s |}
| step_watcher s :
    cancelled s = true -> watching s = true ->
    step WatcherCloses s
      {| cancelled := cancelled s; closed := true; watching := false;
         pending := pending s; bodyEnd := bodyEnd s; rd := rd s;
         received := received s; chanClosed := chanClosed s |}
| step_line s line ls :
    rd s = Reading -> pending s = line :: ls ->
    step (ReadsLine line) s (afterLine s line ls)
| step_fail s failure :
    rd s = Reading -> mayFail s failure ->
    step (ReadFails failure) s (afterFailure s failure)
| step_receive s chunk again :
    rd s = Sending chunk again ->
    step Receives s (afterReceive s chunk again).

Inductive reachable (s0 : state) : state -> Prop :=
| reach_start : reachable s0 s0
| reach_step s s' l : reachable s0 s -> step l s s' -> reachable s0 s'.

(** What the turn after the last line sends when the context is not
    cancelled. *)
Definition lastTurn (e : ending) : list (StreamChunk.t P) :=
  match e with
  | Ends failure => readFailed context.Background failure
  | Stalls => []
  end.

(** What the goroutine sends when the context is never cancelled. *)
Definition uncancelled (body : list string) (e : ending) : list (StreamChunk.t P) :=
  readLines body (lastTurn e).

(** What holds of every state of a stream over [body] and [e]: the
    body is closed only by the watcher, after a cancellation, or by the
    goroutine as it exits; the channel is closed exactly when the
    goroutine has exited; and what has been received, with what is
    still to be sent if nothing is cancelled, is [uncancelled body e]. *)
Definition invariant (body : list string) (e : ending) (s : state) : Prop :=
  bodyEnd s = e
  /\ (closed s = true -> rd s = Exited \/ cancelled s = true)
  /\ (chanClosed s = true <-> rd s = Exited)
  /\ match rd s with
     | Reading =>
         (received s ++ readLines (pending s) (lastTurn e))%list = uncancelled body e
     | Sending chunk true =>
         (received s ++ chunk :: readLines (pending s) (lastTurn e))%list
         = uncancelled body e
     | Sending chunk false => (received s ++ [chunk])%list = uncancelled body e
     | Exited => received s `prefix_of` uncancelled body e
     end.

End Chat.

(** ** Event streams, as the specification describes them *)

(** The structural check of the specification: the payload is an
    object with a member named [error]. *)
Definition hasErrorKey (data : string) : bool :=
  match json.parse data with
  | Ok (json.Object ms) => existsb (fun m => String.eqb m.1 "error") ms
  | _ => false
  end.

(** The same check at every depth: some object of the payload has a
    member named [error]. *)
Fixpoint mentionsErrorKey (v : json.value) : bool :=
  match v with
  | json.Object ms =>
      (fix members (ms : list (string * json.value)) : bool :=
         match ms with
         | [] => false
         | (key, v') :: ms' =>
             String.eqb key "error" || mentionsErrorKey v' || members ms'
         end) ms
  | json.Array vs =>
      (fix elements (vs : list json.value) : bool :=
         match vs with
         | [] => false
         | v' :: vs' => mentionsErrorKey v' || elements vs'
         end) vs
  | _ => false
  end.

Fixpoint oneLine (s : string) : bool :=
  match s with
  | EmptyString => true
  | String c r => negb (Ascii.eqb c strings.LF) && oneLine r
  end.

Fixpoint endsWith (s : string) (c : ascii) : bool :=
  match s with
  | EmptyString => false
  | String d EmptyString => Ascii.eqb d c
  | String _ r => endsWith r c
  end.

(** A line of an event stream before the terminal token: a data frame
    with its payload, or any other line (a blank separator, a comment). *)
Inductive item :=
| Frame (payload : string)
| Other (line : string).

Definition wireLine (it : item) : string :=
  match it with
  | Frame payload => "data: " +:+ payload +:+ String strings.LF EmptyString
  | Other line => line +:+ String strings.LF EmptyString
  end.

Fixpoint wire (items : list item) : string :=
  match items with
  | [] => EmptyString
  | it :: items' => wireLine it +:+ wire items'
  end.

Definition doneLine : string := "data: [DONE]" +:+ String strings.LF EmptyString.

(** The payload of the frame does not hold the byte sequence the
    decoder looks for, a quote, the word error, a quote and a colon. *)
Definition markerFree (it : item) : bool :=
  match it with
  | Frame payload => negb (strings.Contains payload errorMarker)
  | Other _ => true
  end.

Section EventStream.

Context {P : Type} `{!json.Unmarshaler P}.

(** A well-formed content-delta frame, as the specification has it:
    one line, a JSON object with no member named [error] that decodes
    into the chunk payload. Any other line is one that does not begin
    with the data prefix. *)
Definition wellFormed (it : item) : bool :=
  match it with
  | Frame payload =>
      oneLine payload && endsWith payload "}"
      && negb (hasErrorKey payload)
      && match json.Unmarshal (T := P) payload with Ok _ => true | Fail _ => false end
  | Other line =>
      oneLine line
      && negb (strings.HasPrefix
                 (strings.TrimSpace (line +:+ String strings.LF EmptyString)) "data: ")
  end.

(** The chunks of the frames, in the order of the wire. *)
Fixpoint contentChunks (items : list item) : list (StreamChunk.t P) :=
  match items with
  | [] => []
  | Frame payload :: items' =>
      match json.Unmarshal (T := P) payload with
      | Ok chunk => StreamChunk.mk chunk None :: contentChunks items'
      | Fail _ => contentChunks items'
      end
  | Other _ :: items' => contentChunks items'
  end.

Definition isFrame (it : item) : bool :=
  match it with
  | Frame _ => true
  | Other _ => false
  end.

End EventStream.

(** ** [client.go]: the construction of a client *)

Module time.

(** A [time.Duration]: nanoseconds in 64 bits; a product wraps. *)
Definition Second : Z := 1000000000.

Definition wrap (n : Z) : Z := (n + 2 ^ 63) mod 2 ^ 64 - 2 ^ 63.

Definition mul (a b : Z) : Z := wrap (a * b).

End time.

Module ClientOptions.

Record t := mk {
  ApiKey : string;
  BaseURL : string;
  Timeout : Z
}.

End ClientOptions.

(** An option is a function that writes to the options it is given. *)
Definition Option : Type := ClientOptions.t -> ClientOptions.t.

Definition WithApiKey (apiKey : string) : Option :=
  fun c => ClientOptions.mk apiKey (ClientOptions.BaseURL c) (ClientOptions.Timeout c).

Definition WithBaseURL (baseURL : string) : Option :=
  fun c => ClientOptions.mk (ClientOptions.ApiKey c) baseURL (ClientOptions.Timeout c).

(** [dial timeout] stands for the value [&http.Client{Timeout: timeout}]
    over the network at hand. *)
Definition NewClient (dial : Z -> http.Client) (opts : list Option)
  : result error Client :=
  let clientOpts :=
    fold_left (fun o (opt : Option) => opt o) opts
      (ClientOptions.mk EmptyString "https://cencori.com" 30) in
  let httpClient := dial (time.mul (ClientOptions.Timeout clientOpts) time.Second) in
  if String.eqb (ClientOptions.ApiKey clientOpts) EmptyString then
    Fail (Leaf (Foreign "You need a valid API Key to use this client"))
  else
    Ok {| ApiKey := ClientOptions.ApiKey clientOpts;
          BaseURL := ClientOptions.BaseURL clientOpts;
          httpClient := httpClient |}.

(** The options the package offers, as data, to speak of lists of them. *)
Inductive setting :=
| ApiKeyIs (apiKey : string)
| BaseURLIs (baseURL : string).

Definition optionOf (st : setting) : Option :=
  match st with
  | ApiKeyIs apiKey => WithApiKey apiKey
  | BaseURLIs baseURL => WithBaseURL baseURL
  end.

(** The key, and the base URL, of the last setting that gives one. *)
Fixpoint lastApiKey (sts : list setting) : option string :=
  match sts with
  | [] => None
  | st :: sts' =>
      match lastApiKey sts' with
      | Some k => Some k
      | None => match st with ApiKeyIs k => Some k | BaseURLIs _ => None end
      end
  end.

Fixpoint lastBaseURL (sts : list setting) : option string :=
  match sts with
  | [] => None
  | st :: sts' =>
      match lastBaseURL sts' with
      | Some u => Some u
      | None => match st with BaseURLIs u => Some u | ApiKeyIs _ => None end
      end
  end.

(** ** The chat service: [Completions] *)

Module CompletionParams.

(** The declaration of [CompletionParams] is not among the sources; its
    fields are those [Completions] reads. *)
Record t := mk {
  Prompt : string;
  Model : string;
  Temperature : option float64;
  MaxTokens : option Z
}.

End CompletionParams.

Section Facades.

Context {ChatResponse : Type} `{!json.Unmarshaler ChatResponse}.
Context `{!json.Marshaler ChatParams.t}.

(** [chatParams := &ChatParams{...}] allocates: the new value gets an
    address the store does not hold yet. *)
Definition Completions (s : ChatService) (ctx : context.Context)
    (params : CompletionParams.t) (h : gmap loc ChatParams.t)
  : gmap loc ChatParams.t * outcome (result error ChatResponse) :=
  let chatParams : loc := fresh (dom h) in
  let h' :=
    <[chatParams :=
        ChatParams.mk (CompletionParams.Model params)
          [{| Role := "user"; Content := CompletionParams.Prompt params |}]
          (CompletionParams.Temperature params) (CompletionParams.MaxTokens params)
          false]> h in
  Create s ctx (Some chatParams) h'.

End Facades.

(** ** Notions the properties speak of *)

(** The JSON text of the body of a request: none when the caller
    passes no body, or one that cannot be encoded. *)
Definition encoded {Req : Type} `{!json.Marshaler Req} (body : option Req)
  : option string :=
  match body with
  | Some b => match json.Marshal b with Ok data => Some data | Fail _ => None end
  | None => None
  end.

(** A string of ASCII white space: tabs, line feeds, vertical tabs,
    form feeds, carriage returns and spaces. *)
Fixpoint allSpace (t : string) : bool :=
  match t with
  | EmptyString => true
  | String c r => strings.asciiSpace c && allSpace r
  end.

(** The lines [ls], each followed by [ending]. *)
Fixpoint joinLines (ending : string) (ls : list string) : string :=
  match ls with
  | [] => EmptyString
  | l :: ls' => l +:+ ending +:+ joinLines ending ls'
  end.

(** ** The values of the tests *)

Module tests.

Definition LF : string := String strings.LF EmptyString.

(** The request type of a call that passes [nil] for the body. *)
Definition nobody : Type := Empty_set.

#[global] Instance nobody_marshaler : json.Marshaler nobody :=
  fun b => match b with end.

(** [any] as a response type: every value is kept as it is. *)
#[global] Instance any_unmarshaler : json.Unmarshaler json.value := {|
  json.zero := json.Null;
  json.decode := fun v _ => Ok v
|}.

(** [map[string]string], the response type of [TestDoRequest_Sucess]. *)
Fixpoint decodeEntries (ms : list (string * json.value)) (cur : gmap string string)
  : result string (gmap string string) :=
  match ms with
  | [] => Ok cur
  | (key, v) :: ms' =>
      x ← json.decodeString v EmptyString;
      decodeEntries ms' (<[key := x]> cur)
  end.

#[global] Instance map_unmarshaler : json.Unmarshaler (gmap string string) := {|
  json.zero := ∅;
  json.decode := fun v cur =>
    match v with
    | json.Object ms => decodeEntries ms cur
    | json.Null => Ok ∅
    | _ => Fail "json: cannot unmarshal into Go value of type map[string]string"
    end
|}.

(** The payload of a chunk as the tests read it:
    [chunk.Choices[0].Delta.Content]. *)
Record Delta := { Content : string }.

Record Choice := { delta : Delta }.

Record Chunk := { Choices : list Choice }.

#[global] Instance delta_unmarshaler : json.Unmarshaler Delta := {|
  json.zero := {| Content := EmptyString |};
  json.decode :=
    json.decodeStruct
      [("content", fun v d => c ← json.decodeString v (Content d); Ok {| Content := c |})]
|}.

#[global] Instance choice_unmarshaler : json.Unmarshaler Choice := {|
  json.zero := {| delta := json.zero |};
  json.decode :=
    json.decodeStruct
      [("delta", fun v c => d ← json.decode v (delta c); Ok {| delta := d |})]
|}.

#[global] Instance chunk_unmarshaler : json.Unmarshaler Chunk := {|
  json.zero := {| Choices := [] |};
  json.decode :=
    json.decodeStruct
      [("choices", fun v c =>
          cs ← json.decodeSlice json.zero json.decode v (Choices c);
          Ok {| Choices := cs |})]
|}.

(** An encoder of [ChatParams] for the examples: the struct tags are
    not among the sources, and no example reads the request body. *)
#[global] Instance params_marshaler : json.Marshaler ChatParams.t :=
  fun p =>
    Ok (json.js "{'model':'" +:+ ChatParams.Model p
        +:+ json.js "','stream':" +:+ (if ChatParams.Stream p then "true" else "false")
        +:+ "}").

(** Another shape of the error body, one whose [status_code] member
    sets the status code of the decoded error. *)
Definition statusShape : json.Unmarshaler APIError.t := {|
  json.zero := APIError.mk 0 EmptyString EmptyString None;
  json.decode :=
    json.decodeStruct
      [("status_code", fun v e =>
          n ← json.decodeInt v (APIError.StatusCode e); Ok (APIError.withStatusCode e n));
       ("code", fun v e =>
          c ← json.decodeString v (APIError.Code e); Ok (APIError.withCode e c));
       ("error", fun v e =>
          m ← json.decodeString v (APIError.Message e); Ok (APIError.withMessage e m))]
|}.

(** A body that claims the status 200. *)
Definition forgedBody : string :=
  json.js "{'status_code':200,'code':'FORGED','error':'all is well'}".

(** A test server that answers every request with one response. *)
Definition server (status : Z) (body : string) : http.Client :=
  {| http.NewRequest := fun _ _ => None;
     http.Do := fun _ _ =>
       Ok {| http.StatusCode := status;
             http.RespBody := {| io.data := body; io.failure := None |} |} |}.

(** A test server whose response body breaks off with a read error. *)
Definition brokenServer (status : Z) (body err : string) : http.Client :=
  {| http.NewRequest := fun _ _ => None;
     http.Do := fun _ _ =>
       Ok {| http.StatusCode := status;
             http.RespBody := {| io.data := body; io.failure := Some err |} |} |}.

Definition clientOf (net : http.Client) : Client :=
  {| ApiKey := "test-key"; BaseURL := "http://127.0.0.1"; httpClient := net |}.

(** The body of [TestDoRequest_401MapsToTypedError], as
    [json.NewEncoder(w).Encode] writes it. *)
Definition invalidKeyBody : string :=
  json.js "{'code':'INVALID_API_KEY','error':'Invalid API key'}" +:+ LF.

(** The stream of [TestChat_Stream_Success]. *)
Definition helloStream : string :=
  json.js "data: {'choices': [{'delta': {'content': 'Hello'}}]}" +:+ LF +:+ LF
  +:+ json.js "data: {'choices': [{'delta': {'content': '!'}}]}" +:+ LF +:+ LF
  +:+ "data: [DONE]" +:+ LF +:+ LF.

(** The body of [TestDoRequest_429MapsToErrRateLimited]. *)
Definition rateLimitBody : string :=
  json.js "{'code':'RATE_LIMIT_EXCEEDED','error':'Too many requests'}" +:+ LF.

(** The stream of [TestChat_Stream_MidErrorFrame]. *)
Definition midErrorStream : string :=
  json.js "data: {'choices': [{'delta': {'content': 'Hello'}}]}" +:+ LF +:+ LF
  +:+ json.js "data: {'error': 'something went wrong', 'code': 'PROVIDER_ERROR'}"
  +:+ LF +:+ LF.

(** [TestChat_Stream_ContextCancel]: one frame, then the server
    waits; the state of the stream once the chunk is received and the
    goroutine waits for more, the context cancelled or not. *)
Definition helloLine : string :=
  json.js "data: {'choices': [{'delta': {'content': 'Hello'}}]}" +:+ LF.

Definition hello : StreamChunk.t Chunk :=
  StreamChunk.mk {| Choices := [{| delta := {| Content := "Hello" |} |}] |} None.

Definition stalled (c : bool) : state (P := Chunk) :=
  {| cancelled := c; closed := false; watching := true;
     pending := []; bodyEnd := Stalls; rd := Reading;
     received := [hello]; chanClosed := false |}.

(** A test server that answers only the requests that carry the API
    key, as the handler of [TestDoRequest_Sucess] does. *)
Definition keyServer (apiKey : string) (status : Z) (body : string) : http.Client :=
  {| http.NewRequest := fun _ _ => None;
     http.Do := fun _ req =>
       if bool_decide (http.Header req !! "CENCORI_API_KEY" = Some apiKey)
       then Ok {| http.StatusCode := status;
                  http.RespBody := {| io.data := body; io.failure := None |} |}
       else Fail "API key not sent" |}.

(** [TestChat_Stream_Success] cut to one frame: the stream once the
    chunk is received, the body has ended and the goroutine has
    exited. *)
Definition delivered : state (P := Chunk) :=
  {| cancelled := false; closed := true; watching := true;
     pending := []; bodyEnd := Ends None; rd := Exited;
     received := [hello]; chanClosed := true |}.

(** The payloads of the frames of the tests. *)
Definition helloPayload : string :=
  json.js "{'choices': [{'delta': {'content': 'Hello'}}]}".

(** A content delta with one more member, whose name is [x], a quote
    and the word error, and the stream that sends it before the frame
    of the tests. *)
Definition quirkPayload : string :=
  json.js "{'choices':[{'delta':{'content':'hi'}}],'x\'error':1}".

Definition hi : StreamChunk.t Chunk :=
  StreamChunk.mk {| Choices := [{| delta := {| Content := "hi" |} |}] |} None.

Definition quirkItems : list item :=
  [Frame quirkPayload; Other EmptyString; Frame helloPayload; Other EmptyString].

Definition providerErrorPayload : string :=
  json.js "{'error': 'something went wrong', 'code': 'PROVIDER_ERROR'}".

Definition CR : string := String (strings.byte 13) EmptyString.

(** A stream whose goroutine waits in a send, the context cancelled. *)
Definition sending : state (P := Chunk) :=
  {| cancelled := true; closed := false; watching := true;
     pending := []; bodyEnd := Stalls; rd := Sending hello true;
     received := []; chanClosed := false |}.

End tests.


(** * Properties *)

Import tests.

(** ** The error model *)

Lemma sentinelErrors_entries :
  Forall (fun entry => APIError.sentinelErrors !! entry.1 = Some entry.2)
    [("INVALID_API_KEY", ErrInvalidApiKey);
     ("RATE_LIMIT_EXCEEDED", ErrRateLimited);
     ("INSUFFICIENT_CREDITS", ErrInsufficientCredits);
     ("TIER_RESTRICTED", ErrTierRestricted);
     ("INVALID_MODEL", ErrInvalidModel);
     ("PROVIDER_ERROR", ErrProvider);
     ("CONTENT_FILTERED", ErrContentFiltered)].
Proof. repeat constructor; by vm_compute. Qed.

(** [TestAPIError_fillSentinel]: after [fillSentinel], an error with a
    code of the table matches the sentinel of that code. *)
Lemma fillSentinel_known (code : string) (s : sentinel) :
  APIError.sentinelErrors !! code = Some s ->
  forall status msg w,
    errors.Is (APIErr (APIError.fillSentinel (APIError.mk status code msg w)))
      (Sentinel s) = true.
Proof.
  intros Hs status msg w. unfold APIError.fillSentinel. simpl. rewrite Hs.
  simpl. by rewrite bool_decide_eq_true.
Qed.

Lemma fillSentinel_Code (e : APIError.t) :
  APIError.Code (APIError.fillSentinel e) = APIError.Code e.
Proof. unfold APIError.fillSentinel. by destruct (_ !! _). Qed.

(** C8. [fillSentinel] is idempotent: applied twice, it yields the
    error it yields applied once, so the same wrapped result; and for
    a code the sentinel table does not hold it changes nothing, so an
    error whose [Err] is unset keeps it unset. *)
Theorem fillSentinel_idempotent (e : APIError.t) :
  APIError.fillSentinel (APIError.fillSentinel e) = APIError.fillSentinel e
  /\ (APIError.sentinelErrors !! APIError.Code e = None ->
      APIError.fillSentinel e = e
      /\ (APIError.Err e = None -> APIError.Err (APIError.fillSentinel e) = None)).
Proof.
  split.
  - unfold APIError.fillSentinel at 1. rewrite fillSentinel_Code.
    unfold APIError.fillSentinel.
    destruct (APIError.sentinelErrors !! APIError.Code e) as [s|]; reflexivity.
  - intros Hnone.
    assert (APIError.fillSentinel e = e) as ->; [|done].
    unfold APIError.fillSentinel. by rewrite Hnone.
Qed.

Lemma fillSentinel_idempotent_witness :
  APIError.fillSentinel (APIError.fillSentinel (APIError.mk 500 "TEAPOT" "short and stout" None))
  = APIError.fillSentinel (APIError.mk 500 "TEAPOT" "short and stout" None)
  /\ APIError.Err (APIError.fillSentinel (APIError.mk 500 "TEAPOT" "short and stout" None)) = None
  /\ APIError.Err (APIError.fillSentinel
                     (APIError.fillSentinel (APIError.mk 429 "RATE_LIMIT_EXCEEDED" "slow down" None)))
     = Some (Sentinel ErrRateLimited).
Proof.
  pose proof (fillSentinel_idempotent (APIError.mk 500 "TEAPOT" "short and stout" None))
    as [Htwice Hno].
  pose proof (fillSentinel_idempotent (APIError.mk 429 "RATE_LIMIT_EXCEEDED" "slow down" None))
    as [Hrate _].
  split; [exact Htwice|]. split.
  - apply Hno; reflexivity.
  - rewrite Hrate. reflexivity.
Defined.

(** C9. The formatting operation of an API Error renders
    ["cencori: <message> (code: <code>, status: <status_code>)"] when
    the code is not empty and ["cencori: <message> (status:
    <status_code>)"] when it is, the status code in decimal. *)
Theorem APIError_Error_format (e : APIError.t) :
  (APIError.Code e <> EmptyString ->
   APIError.Error e =
     "cencori: " +:+ APIError.Message e +:+ " (code: " +:+ APIError.Code e
       +:+ ", status: " +:+ NilZero.string_of_int (Z.to_int (APIError.StatusCode e)) +:+ ")")
  /\ (APIError.Code e = EmptyString ->
      APIError.Error e =
        "cencori: " +:+ APIError.Message e
          +:+ " (status: " +:+ NilZero.string_of_int (Z.to_int (APIError.StatusCode e)) +:+ ")").
Proof.
  unfold APIError.Error, APIError.namespace, APIError.itoa. split; intros Hcode.
  - apply String.eqb_neq in Hcode. by rewrite Hcode.
  - apply String.eqb_eq in Hcode. by rewrite Hcode.
Qed.

(** The two cases of [TestAPIError_Error]. *)
Lemma APIError_Error_format_witness :
  APIError.Error (APIError.mk 401 "INVALID_API_KEY" "Invalid API key" None)
  = "cencori: Invalid API key (code: INVALID_API_KEY, status: 401)"
  /\ APIError.Error (APIError.mk 500 EmptyString "Server error" None)
     = "cencori: Server error (status: 500)".
Proof.
  split.
  - rewrite (proj1 (APIError_Error_format
                      (APIError.mk 401 "INVALID_API_KEY" "Invalid API key" None)));
      [reflexivity | discriminate].
  - rewrite (proj2 (APIError_Error_format (APIError.mk 500 EmptyString "Server error" None)));
      reflexivity.
Defined.

(** ** The request executor *)

Lemma findField_In {T} (key : string) (fields : list (json.field T)) (f : json.field T) :
  json.findField key fields = Some f -> In f fields.
Proof.
  unfold json.findField.
  destruct (List.find (fun f => String.eqb f.1 key) fields) as [g|] eqn:Hexact.
  - intros [= <-]. by apply List.find_some in Hexact as [? _].
  - intros Hfold. by apply List.find_some in Hfold as [? _].
Qed.

(** What every field's store keeps, decoding an object keeps. *)
Lemma decodeMembers_keeps {T A} (get : T -> A) (fields : list (json.field T)) :
  (forall f, In f fields -> forall v cur x, f.2 v cur = Ok x -> get x = get cur) ->
  forall ms cur e, json.decodeMembers fields ms cur = Ok e -> get e = get cur.
Proof.
  intros Hfields. induction ms as [|[key v] ms IH]; intros cur e; simpl.
  - by intros [= <-].
  - destruct (json.findField key fields) as [[name store]|] eqn:Hfind.
    + apply findField_In in Hfind.
      destruct (store v cur) as [cur'|] eqn:Hstore; simpl; [|done].
      intros Hrest. rewrite (IH _ _ Hrest).
      exact (Hfields _ Hfind v cur cur' Hstore).
    + apply IH.
Qed.

(** No JSON text sets the field [Err]: an error decoded from a body
    wraps nothing. *)
Lemma Unmarshal_APIError_Err (data : string) (e : APIError.t) :
  json.Unmarshal data = Ok e -> APIError.Err e = None.
Proof.
  unfold json.Unmarshal. destruct (json.parse data) as [v|]; simpl; [|done].
  unfold json.decodeStruct. destruct v; try done.
  - by intros [= <-].
  - intros H.
    apply (decodeMembers_keeps APIError.Err) in H; [done|].
    intros f [<-|[<-|[]]] v cur x; simpl;
      destruct (json.decodeString v _); simpl; try done; by intros [= <-].
Qed.

Section Executor.

Context {Req Resp : Type} `{!json.Marshaler Req} `{!json.Unmarshaler Resp}.

(** Any way of decoding a body into an [APIError]: it may set the
    status code and the wrapped error as well. *)
Context (shape : json.Unmarshaler APIError.t).

Implicit Types (c : Client) (ctx : context.Context) (body : option Req).
Implicit Types (resp : http.Response).

Lemma doRequest_respond c ctx method path body resp :
  exchange c ctx method path body = Ok resp ->
  doRequest (Resp := Resp) (shape := shape) c ctx method path body = respond (shape := shape) resp.
Proof. unfold doRequest. by intros ->. Qed.

(** The errors [exchange] ends with are local or transport errors,
    none of them an API Error. *)
Lemma exchange_no_APIError c ctx method path body err :
  exchange c ctx method path body = Fail err -> errors.AsAPIError err = None.
Proof.
  unfold exchange. destruct body as [b|]; simpl.
  - destruct (json.Marshal b); simpl; [|by intros [= <-]].
    destruct (http.NewRequestWithContext _ _ _ _ _); simpl; [|by intros [= <-]].
    destruct (http.Do _ _ _); [done | by intros [= <-]].
  - destruct (http.NewRequestWithContext _ _ _ _ _); simpl; [|by intros [= <-]].
    destruct (http.Do _ _ _); [done | by intros [= <-]].
Qed.

(** C6. For a response whose status is not 200 (every non-success
    status is such) and whose body, read in full, does not decode
    into the API Error shape, [doRequest] returns an API Error with
    code [UNKNOWN], the raw body text as its message and the status
    code of the response. *)
Theorem doRequest_undecodable_body c ctx method path body resp raw err :
  exchange c ctx method path body = Ok resp ->
  http.StatusCode resp <> http.StatusOK ->
  io.ReadAll (http.RespBody resp) = Ok raw ->
  @json.Unmarshal APIError.t shape raw = Fail err ->
  doRequest (Resp := Resp) (shape := shape) c ctx method path body
  = Fail (APIErr (APIError.mk (http.StatusCode resp) "UNKNOWN" raw None)).
Proof.
  intros Hex Hstatus Hread Hdec. rewrite (doRequest_respond _ _ _ _ _ _ Hex).
  unfold respond. apply Z.eqb_neq in Hstatus. rewrite Hstatus. simpl.
  by rewrite Hread, Hdec.
Qed.

(** C7. Every API Error [doRequest] produces for a response carries
    the status code of that response, whether the body decoded as
    structured error JSON or not. *)
Theorem doRequest_status_code c ctx method path body resp err e :
  exchange c ctx method path body = Ok resp ->
  doRequest (Resp := Resp) (shape := shape) c ctx method path body = Fail err ->
  errors.AsAPIError err = Some e ->
  APIError.StatusCode e = http.StatusCode resp.
Proof.
  intros Hex. rewrite (doRequest_respond _ _ _ _ _ _ Hex).
  unfold respond. destruct (negb _).
  - destruct (io.ReadAll _) as [raw|]; [destruct (@json.Unmarshal APIError.t shape raw)|];
      intros [= <-] [= <-]; reflexivity.
  - destruct (json.Decode _); [done|]. by intros [= <-].
Qed.

(** C2, as the code has it: the status that counts as success is 200
    alone. For a response with status 200, [doRequest] decodes the
    body into the caller's type and returns it, and a decode failure
    is a local error, not an API Error; for a response with any other
    status, the other 2xx codes among them, it returns an API Error. *)
Theorem doRequest_success_is_200 c ctx method path body resp :
  exchange c ctx method path body = Ok resp ->
  (http.StatusCode resp = http.StatusOK ->
   doRequest (Resp := Resp) (shape := shape) c ctx method path body
   = match json.Decode (http.RespBody resp) with
     | Ok result => Ok result
     | Fail err => Fail (Errorf "decode response: " (Leaf (Foreign err)))
     end)
  /\ (http.StatusCode resp <> http.StatusOK ->
      exists e, doRequest (Resp := Resp) (shape := shape) c ctx method path body = Fail (APIErr e)).
Proof.
  intros Hex. rewrite (doRequest_respond _ _ _ _ _ _ Hex). unfold respond. split.
  - intros ->. simpl. by destruct (json.Decode _).
  - intros Hstatus. apply Z.eqb_neq in Hstatus. rewrite Hstatus. simpl.
    destruct (io.ReadAll _) as [raw|]; [destruct (@json.Unmarshal APIError.t shape raw)|]; eauto.
Qed.

(** X1. For a response whose status is not 200 and whose body cannot
    be read to its end, [doRequest] returns an API Error with the code
    [READ_ERROR], the status code of the response and a message that
    holds the read error. *)
Theorem doRequest_read_error c ctx method path body resp err :
  exchange c ctx method path body = Ok resp ->
  http.StatusCode resp <> http.StatusOK ->
  io.ReadAll (http.RespBody resp) = Fail err ->
  doRequest (Resp := Resp) (shape := shape) c ctx method path body
  = Fail (APIErr (APIError.mk (http.StatusCode resp) "READ_ERROR"
                    ("failed to read response body: " +:+ err) None)).
Proof.
  intros Hex Hstatus Hread. rewrite (doRequest_respond _ _ _ _ _ _ Hex).
  unfold respond. apply Z.eqb_neq in Hstatus. rewrite Hstatus. simpl.
  by rewrite Hread.
Qed.

(** Whatever the response, the error [doRequest] returns matches
    no sentinel: nothing on its path consults the sentinel table. *)
Theorem doRequest_matches_no_sentinel c ctx method path body err (s : sentinel) :
  doRequest (Resp := Resp) (shape := APIError.unmarshaler) c ctx method path body = Fail err ->
  errors.Is err (Sentinel s) = false.
Proof.
  unfold doRequest.
  destruct (exchange c ctx method path body) as [resp|err'] eqn:Hex; simpl.
  - unfold respond. destruct (negb _).
    + destruct (io.ReadAll _) as [raw|];
        [destruct (@json.Unmarshal APIError.t APIError.unmarshaler raw) eqn:Hdec|];
        intros [= <-]; simpl; try done.
      by rewrite (Unmarshal_APIError_Err _ _ Hdec).
    + destruct (json.Decode _); [done|]. by intros [= <-].
  - intros [= <-]. revert Hex. unfold exchange.
    destruct body as [b|]; simpl.
    + destruct (json.Marshal b); simpl;
        [|intros [= <-]; done].
      destruct (http.NewRequestWithContext _ _ _ _ _); simpl;
        [|intros [= <-]; done].
      destruct (http.Do _ _ _); [done|].
      intros [= <-]; done.
    + destruct (http.NewRequestWithContext _ _ _ _ _); simpl;
        [|intros [= <-]; done].
      destruct (http.Do _ _ _); [done|].
      intros [= <-]; done.
Qed.

End Executor.

(** C1, at the input of [TestDoRequest_401MapsToTypedError]: for the
    status 401 and a body with the code [INVALID_API_KEY], the error
    [doRequest] returns wraps nothing and does not match
    [ErrInvalidApiKey], where the test expects it to; [handleError],
    on the same response, returns an error that does. *)
Theorem doRequest_401_wraps_no_sentinel :
  doRequest (Req := nobody) (Resp := json.value)
    (clientOf (server 401 invalidKeyBody)) context.Background "GET" "/test" None
  = Fail (APIErr (APIError.mk 401 "INVALID_API_KEY" "Invalid API key" None))
  /\ errors.Is (APIErr (APIError.mk 401 "INVALID_API_KEY" "Invalid API key" None))
       (Sentinel ErrInvalidApiKey) = false
  /\ errors.Is
       (handleError {| http.StatusCode := 401;
                       http.RespBody := {| io.data := invalidKeyBody; io.failure := None |} |})
       (Sentinel ErrInvalidApiKey) = true.
Proof. repeat split; vm_compute; reflexivity. Qed.

(** C2 fails as stated: a response with the status 201, a success
    status, and a body that decodes into the caller's type is answered
    with an API Error. *)
Lemma doRequest_201_is_an_APIError :
  ~ (forall (c : Client) (ctx : context.Context) (method path : string)
            (resp : http.Response),
        exchange (Req := nobody) c ctx method path None = Ok resp ->
        http.success2xx (http.StatusCode resp) = true ->
        doRequest (Req := nobody) (Resp := gmap string string) c ctx method path None
        = match json.Decode (http.RespBody resp) with
          | Ok result => Ok result
          | Fail err => Fail (Errorf "decode response: " (Leaf (Foreign err)))
          end).
Proof.
  intros Hclaim.
  specialize (Hclaim (clientOf (server 201 (json.js "{'id':'test-id'}" +:+ LF)))
                context.Background "GET" "/test"
                {| http.StatusCode := 201;
                   http.RespBody := {| io.data := json.js "{'id':'test-id'}" +:+ LF;
                                       io.failure := None |} |}).
  specialize (Hclaim ltac:(vm_compute; reflexivity) ltac:(reflexivity)).
  vm_compute in Hclaim. discriminate Hclaim.
Qed.

(** [TestDoRequest_Sucess] and the same exchange with the status 503. *)
Lemma doRequest_success_is_200_witness :
  doRequest (Req := nobody) (Resp := gmap string string)
    (clientOf (server 200 (json.js "{'id':'test-id'}" +:+ LF)))
    context.Background "GET" "/test" None
  = Ok {[ "id" := "test-id" ]}
  /\ exists e,
       doRequest (Req := nobody) (Resp := gmap string string)
         (clientOf (server 503 "Service Unavailable"))
         context.Background "GET" "/test" None
       = Fail (APIErr e).
Proof.
  split.
  - rewrite (proj1 (doRequest_success_is_200 (Req := nobody) (Resp := gmap string string)
                    APIError.unmarshaler
                      (clientOf (server 200 (json.js "{'id':'test-id'}" +:+ LF)))
                      context.Background "GET" "/test" None
                      {| http.StatusCode := 200;
                         http.RespBody := {| io.data := json.js "{'id':'test-id'}" +:+ LF;
                                             io.failure := None |} |}
                      ltac:(vm_compute; reflexivity)) eq_refl).
    vm_compute; reflexivity.
  - apply (proj2 (doRequest_success_is_200 (Req := nobody) (Resp := gmap string string)
                    APIError.unmarshaler
                    (clientOf (server 503 "Service Unavailable"))
                    context.Background "GET" "/test" None
                    {| http.StatusCode := 503;
                       http.RespBody := {| io.data := "Service Unavailable";
                                           io.failure := None |} |}
                    ltac:(vm_compute; reflexivity))).
    simpl. unfold http.StatusOK. lia.
Defined.

(** [TestErrorDecoding_InvalidJSON]. *)
Lemma doRequest_undecodable_body_witness :
  doRequest (Req := nobody) (Resp := json.value)
    (clientOf (server 400 "not a json")) context.Background "POST" "/api/ai/chat" None
  = Fail (APIErr (APIError.mk 400 "UNKNOWN" "not a json" None)).
Proof.
  apply (doRequest_undecodable_body (Req := nobody) (Resp := json.value)
                    APIError.unmarshaler
           (clientOf (server 400 "not a json")) context.Background "POST" "/api/ai/chat" None
           {| http.StatusCode := 400;
              http.RespBody := {| io.data := "not a json"; io.failure := None |} |}
           "not a json" "invalid character or unexpected end of JSON input").
  - vm_compute; reflexivity.
  - simpl. unfold http.StatusOK. lia.
  - reflexivity.
  - vm_compute; reflexivity.
Defined.

(** A body that claims the status 200, decoded with a shape that reads
    the claim, in a response with the status 503. *)
Lemma doRequest_status_code_witness :
  json.Unmarshal (Unmarshaler0 := statusShape) forgedBody
  = Ok (APIError.mk 200 "FORGED" "all is well" None)
  /\ exists e,
       doRequest (Req := nobody) (Resp := json.value) (shape := statusShape)
         (clientOf (server 503 forgedBody)) context.Background "GET" "/test" None
       = Fail (APIErr e)
       /\ APIError.StatusCode e = 503.
Proof.
  split; [vm_compute; reflexivity|].
  exists (APIError.mk 503 "FORGED" "all is well" None).
  assert (doRequest (Req := nobody) (Resp := json.value) (shape := statusShape)
            (clientOf (server 503 forgedBody)) context.Background "GET" "/test" None
          = Fail (APIErr (APIError.mk 503 "FORGED" "all is well" None))) as Hcode
    by (vm_compute; reflexivity).
  split; [exact Hcode|].
  exact (doRequest_status_code (Req := nobody) (Resp := json.value) statusShape
           (clientOf (server 503 forgedBody)) context.Background "GET" "/test" None
           {| http.StatusCode := 503;
              http.RespBody := {| io.data := forgedBody; io.failure := None |} |}
           (APIErr (APIError.mk 503 "FORGED" "all is well" None))
           (APIError.mk 503 "FORGED" "all is well" None)
           ltac:(vm_compute; reflexivity) Hcode eq_refl).
Defined.

(** ** The chat service *)

Section ChatMutation.

Context {ChatResponse : Type} `{!json.Unmarshaler ChatResponse}.
Context `{!json.Marshaler ChatParams.t}.

(** C10. [Create] and [Stream] write to the caller's [ChatParams]:
    after the call the value at the address passed in is the one
    passed in with [Stream] set to [false] by [Create] and to [true]
    by [Stream], every other field and every other address as before;
    so the caller's value has changed whenever its [Stream] field
    disagreed. *)
Theorem Create_Stream_mutate_params (s : ChatService) (ctx : context.Context)
    (l : loc) (h : gmap loc ChatParams.t) (p : ChatParams.t) :
  h !! l = Some p ->
  (Create (ChatResponse := ChatResponse) s ctx (Some l) h).1
  = <[l := ChatParams.mk (ChatParams.Model p) (ChatParams.Messages p)
            (ChatParams.Temperature p) (ChatParams.MaxTokens p) false]> h
  /\ (Stream s ctx (Some l) h).1
     = <[l := ChatParams.mk (ChatParams.Model p) (ChatParams.Messages p)
               (ChatParams.Temperature p) (ChatParams.MaxTokens p) true]> h
  /\ (forall l', l' <> l ->
        (Create (ChatResponse := ChatResponse) s ctx (Some l) h).1 !! l' = h !! l'
        /\ (Stream s ctx (Some l) h).1 !! l' = h !! l')
  /\ (ChatParams.Stream p = true ->
        (Create (ChatResponse := ChatResponse) s ctx (Some l) h).1 !! l <> h !! l)
  /\ (ChatParams.Stream p = false -> (Stream s ctx (Some l) h).1 !! l <> h !! l).
Proof.
  intros Hl. unfold Create, Stream. rewrite Hl. simpl.
  unfold ChatParams.withStream.
  split; [reflexivity|]. split; [reflexivity|]. split; [|split].
  - intros l' Hne. by rewrite !lookup_insert_ne.
  - intros Hstream. rewrite lookup_insert_eq.
    destruct p; simpl in *; congruence.
  - intros Hstream. rewrite lookup_insert_eq.
    destruct p; simpl in *; congruence.
Qed.

(** A call with a valid address returns; the request [Create] sends
    is made from the value it has written. *)
Lemma Create_returns (s : ChatService) (ctx : context.Context)
    (l : loc) (h : gmap loc ChatParams.t) (p : ChatParams.t) :
  h !! l = Some p ->
  (Create (ChatResponse := ChatResponse) s ctx (Some l) h).2
  = Returns (doRequest (client s) ctx "POST" "/api/ai/chat"
               (Some (ChatParams.withStream p false))).
Proof.
  intros Hl. unfold Create. rewrite Hl. simpl. by rewrite lookup_insert_eq.
Qed.

End ChatMutation.

(** A caller that asked for a stream and calls [Create], and one that
    did not and calls [Stream]. *)
Lemma Create_Stream_mutate_params_witness :
  (Create (ChatResponse := json.value)
     {| client := clientOf (server 200 "{}") |} context.Background (Some 1%positive)
     {[ 1%positive := ChatParams.mk "gpt-4o" [] None None true ]}).1 !! 1%positive
  <> Some (ChatParams.mk "gpt-4o" [] None None true)
  /\ (Stream
        {| client := clientOf (server 200 "{}") |} context.Background (Some 1%positive)
        {[ 1%positive := ChatParams.mk "gpt-4o" [] None None false ]}).1 !! 1%positive
     <> Some (ChatParams.mk "gpt-4o" [] None None false).
Proof.
  split.
  - pose proof (Create_Stream_mutate_params (ChatResponse := json.value)
                  {| client := clientOf (server 200 "{}") |} context.Background 1%positive
                  {[ 1%positive := ChatParams.mk "gpt-4o" [] None None true ]}
                  (ChatParams.mk "gpt-4o" [] None None true) eq_refl)
      as (_ & _ & _ & Hcreate & _).
    exact (Hcreate eq_refl).
  - pose proof (Create_Stream_mutate_params (ChatResponse := json.value)
                  {| client := clientOf (server 200 "{}") |} context.Background 1%positive
                  {[ 1%positive := ChatParams.mk "gpt-4o" [] None None false ]}
                  (ChatParams.mk "gpt-4o" [] None None false) eq_refl)
      as (_ & _ & _ & _ & Hstream).
    exact (Hstream eq_refl).
Defined.

(** ** The stream decoder *)

(** *** Strings and lines *)

Lemma append_cons (x : ascii) (a b : string) : String x a +:+ b = String x (a +:+ b).
Proof. reflexivity. Qed.

Lemma append_nil (b : string) : EmptyString +:+ b = b.
Proof. reflexivity. Qed.

Lemma append_assoc (a b c : string) : (a +:+ b) +:+ c = a +:+ (b +:+ c).
Proof.
  induction a as [|x a IH]; [done|]. rewrite !append_cons. by f_equal.
Qed.

Lemma rev_app_append (a b acc : string) :
  String.rev_app (a +:+ b) acc = String.rev_app b (String.rev_app a acc).
Proof.
  revert acc. induction a as [|x a IH]; intros acc; [done|].
  rewrite append_cons. simpl. apply IH.
Qed.

Lemma rev_app_rev_app (a acc acc' : string) :
  String.rev_app (String.rev_app a acc) acc' = String.rev_app acc (a +:+ acc').
Proof.
  revert acc acc'. induction a as [|x a IH]; intros acc acc'; simpl; [done|].
  by rewrite IH.
Qed.

Lemma TrimLeftSpace_rev_stop (c : ascii) (r : string) :
  strings.asciiSpace c = false -> (strings.code c < 128)%N ->
  strings.TrimLeftSpace_rev (String c r) = String c r.
Proof.
  intros Hsp Hc. simpl. rewrite Hsp.
  assert (forall n, (128 <= n)%N -> (strings.code c =? n)%N = false) as Hne.
  { intros n Hn. apply N.eqb_neq. lia. }
  destruct r as [|d r2]; [done|].
  unfold strings.space2. rewrite !Hne by lia. rewrite andb_false_r.
  destruct r2 as [|e r3]; [done|].
  unfold strings.space3. rewrite !Hne by lia.
  replace ((128 <=? strings.code c)%N) with false by (symmetry; apply N.leb_gt; lia).
  rewrite ?andb_false_r, ?orb_false_r. simpl. rewrite ?andb_false_r. done.
Qed.

Lemma TrimLeftSpace_rev_skip (c : ascii) (r : string) :
  strings.asciiSpace c = true ->
  strings.TrimLeftSpace_rev (String c r) = strings.TrimLeftSpace_rev r.
Proof. intros Hsp. simpl. by rewrite Hsp. Qed.

Lemma endsWith_split (s : string) (c : ascii) :
  endsWith s c = true -> exists q, s = q +:+ String c EmptyString.
Proof.
  induction s as [|d s IH]; [done|]. simpl. destruct s as [|e s'].
  - intros ->%Ascii.eqb_eq. by exists EmptyString.
  - intros [q Hq]%IH. exists (String d q). by rewrite append_cons, <- Hq.
Qed.

Lemma TrimSpace_frame (payload : string) :
  endsWith payload "}" = true ->
  strings.TrimSpace ("data: " +:+ payload +:+ String strings.LF EmptyString)
  = "data: " +:+ payload.
Proof.
  intros [q ->]%endsWith_split.
  unfold strings.TrimSpace.
  assert (strings.TrimLeftSpace ("data: " +:+ (q +:+ "}") +:+ String strings.LF EmptyString)
          = "data: " +:+ (q +:+ "}") +:+ String strings.LF EmptyString) as ->.
  { destruct q; reflexivity. }
  unfold strings.TrimRightSpace, String.rev.
  rewrite <- !append_assoc. rewrite rev_app_append. simpl String.rev_app at 2.
  rewrite rev_app_append. simpl String.rev_app at 2.
  rewrite TrimLeftSpace_rev_skip by reflexivity.
  rewrite TrimLeftSpace_rev_stop; [|reflexivity|reflexivity].
  simpl String.rev_app at 1. rewrite rev_app_rev_app. reflexivity.
Qed.

Lemma lines_line (l more : string) :
  oneLine l = true ->
  bufio.lines (l +:+ String strings.LF more)
  = ((l +:+ String strings.LF EmptyString) :: (bufio.lines more).1, (bufio.lines more).2).
Proof.
  intros Hl. induction l as [|c l IH].
  - rewrite !append_nil. simpl. by destruct (bufio.lines more).
  - simpl in Hl. apply andb_true_iff in Hl as [Hc Hl].
    rewrite !append_cons. simpl. rewrite (IH Hl).
    apply negb_true_iff in Hc. by rewrite Hc.
Qed.

Lemma lines_wireLine (it : item) (more : string) :
  match it with Frame s | Other s => oneLine s = true end ->
  bufio.lines (wireLine it +:+ more)
  = (wireLine it :: (bufio.lines more).1, (bufio.lines more).2).
Proof.
  destruct it as [payload|line]; intros Hone; unfold wireLine.
  - rewrite !append_assoc.
    change (String strings.LF EmptyString +:+ more) with (String strings.LF more).
    change ("data: " +:+ payload +:+ String strings.LF more)
      with (String "d" (String "a" (String "t" (String "a" (String ":" (String " "
              (payload +:+ String strings.LF more))))))).
    change ("data: " +:+ payload +:+ String strings.LF EmptyString)
      with (String "d" (String "a" (String "t" (String "a" (String ":" (String " "
              (payload +:+ String strings.LF EmptyString))))))).
    simpl. by rewrite (lines_line _ _ Hone).
  - rewrite append_assoc.
    change (String strings.LF EmptyString +:+ more) with (String strings.LF more).
    by apply lines_line.
Qed.

Lemma HasPrefix_append (p s : string) : strings.HasPrefix (p +:+ s) p = true.
Proof.
  unfold strings.HasPrefix. induction p as [|c p IH]; [by destruct s|].
  rewrite append_cons. simpl. by destruct (ascii_dec c c).
Qed.

Lemma drop_append (p s : string) : strings.drop (String.length p) (p +:+ s) = s.
Proof. induction p as [|c p IH]; [done|]. rewrite append_cons. apply IH. Qed.

Lemma TrimPrefix_append (p s : string) : strings.TrimPrefix (p +:+ s) p = s.
Proof. unfold strings.TrimPrefix. by rewrite HasPrefix_append, drop_append. Qed.

(** Reading line after line with [ReadString] yields [bufio.lines]. *)
Lemma lines_ReadString (s : string) :
  match bufio.ReadString s with
  | Some (line, rest) =>
      bufio.lines s = (line :: (bufio.lines rest).1, (bufio.lines rest).2)
  | None => bufio.lines s = ([], s)
  end.
Proof.
  induction s as [|c r IH]; [done|]. simpl.
  destruct (Ascii.eqb c strings.LF).
  - by destruct (bufio.lines r).
  - destruct (bufio.ReadString r) as [[line rest]|]; rewrite IH; done.
Qed.

(** *** The goroutine, interleaved with the watcher and the consumer *)

Section Interleaving.

Context {P : Type} `{!json.Unmarshaler P}.

Implicit Types (s : state (P := P)) (e : ending).

Lemma readFailed_cancelled s failure :
  cancelled s = true -> readFailed (P := P) (ctxOf s) failure = [].
Proof. intros Hc. unfold readFailed, ctxOf. by rewrite Hc. Qed.

Lemma readFailed_not_cancelled s failure :
  cancelled s = false ->
  readFailed (P := P) (ctxOf s) failure = readFailed context.Background failure.
Proof. intros Hc. unfold readFailed, ctxOf. by rewrite Hc. Qed.

Lemma invariant_start body e : invariant body e (start body e).
Proof.
  unfold invariant, start, uncancelled; simpl. repeat split; done.
Qed.

Lemma invariant_step body e l s s' : invariant body e s -> step l s s' -> invariant body e s'.
Proof.
  intros (Htail & Hclosed & Hchan & Hout) Hstep.
  destruct Hstep as [s | s Hc Hw | s line ls Hrd Hpend | s failure Hrd Hfail
                    | s chunk again Hrd]; unfold invariant.
  - simpl. split_and!; [done | | done | done].
    intros Hcl. right. done.
  - simpl. split_and!; [done | | done | done]. intros _. by right.
  - rewrite Hrd, Hpend in Hout. simpl in Hout. rewrite Hrd in Hclosed, Hchan.
    unfold afterLine. destruct (handleLine line); simpl.
    + split_and!; done.
    + split_and!; [done | by left | done |]. rewrite app_nil_r in Hout. by rewrite Hout.
    + split_and!; [done | | | done].
      * intros [?|?]%Hclosed; [done | by right].
      * split; [by intros ?%Hchan | done].
    + split_and!; [done | | | done].
      * intros [?|?]%Hclosed; [done | by right].
      * split; [by intros ?%Hchan | done].
  - rewrite Hrd in Hout, Hclosed, Hchan. unfold afterFailure.
    destruct (cancelled s) eqn:Hc.
    + rewrite readFailed_cancelled by done. simpl.
      split_and!; [done | by left | done | by eexists].
    + rewrite readFailed_not_cancelled by done.
      destruct Hfail as [failure Hpend Hends | Hcl | Hcan].
      * rewrite Hpend in Hout. simpl in Hout. rewrite Hends in Htail. subst e.
        unfold lastTurn in Hout.
        destruct (readFailed context.Background failure) as [|chunk more] eqn:Hrf.
        -- simpl. split_and!; [done | by left | done |].
           rewrite app_nil_r in Hout. by rewrite Hout.
        -- assert (more = []) as ->.
           { unfold readFailed in Hrf. simpl in Hrf. destruct failure; by simplify_eq. }
           simpl. split_and!; [done | | | done].
           ++ intros [?|?]%Hclosed; [done | by right].
           ++ split; [by intros ?%Hchan | done].
      * apply Hclosed in Hcl as [?|?]; congruence.
      * congruence.
  - rewrite Hrd in Hout, Hchan, Hclosed. unfold afterReceive. destruct again; simpl.
    + split_and!; [done | | | by rewrite <- app_assoc].
      * intros [?|?]%Hclosed; [done | by right].
      * split; [by intros ?%Hchan | done].
    + split_and!; [done | by left | done | by rewrite Hout].
Qed.

Lemma invariant_reachable body e s : reachable (start body e) s -> invariant body e s.
Proof.
  induction 1 as [|s s' l _ IH Hstep]; [apply invariant_start | by eapply invariant_step].
Qed.


Lemma reachable_trans s0 s1 s2 : reachable s0 s1 -> reachable s1 s2 -> reachable s0 s2.
Proof.
  intros H01 H12. induction H12 as [|s s' l _ IH Hstep]; [done|].
  by eapply reach_step.
Qed.

Lemma readFailed_short (ctx : context.Context) failure :
  readFailed (P := P) ctx failure = []
  \/ exists chunk, readFailed (P := P) ctx failure = [chunk].
Proof.
  unfold readFailed. destruct (context.Err ctx); [by left|].
  destruct failure; [right; by eexists | by left].
Qed.

(** When the context is not cancelled and the consumer receives
    every chunk, the goroutine sends what [readLines] says and closes
    the channel. *)
Lemma run_to_the_end (ls : list string) (failure : option string) :
  forall s,
    rd s = Reading -> pending s = ls -> bodyEnd s = Ends failure -> cancelled s = false ->
    exists s',
      reachable s s' /\ rd s' = Exited /\ chanClosed s' = true
      /\ received s' = (received s ++ readLines ls (readFailed context.Background failure))%list.
Proof.
  induction ls as [|line ls IH]; intros s Hrd Hpend Hend Hc.
  - pose proof (step_fail s failure Hrd (fail_end s failure Hpend Hend)) as Hstep.
    unfold afterFailure in Hstep. rewrite readFailed_not_cancelled in Hstep by done.
    cbn [readLines].
    destruct (readFailed_short context.Background failure) as [Hrf|[chunk Hrf]];
      rewrite Hrf in *.
    + exists (exits s). split_and!; [|done|done|by rewrite app_nil_r].
      eapply reach_step; [apply reach_start | exact Hstep].
    + eexists. split.
      * eapply reach_step; [eapply reach_step; [apply reach_start | exact Hstep]|].
        by apply (step_receive _ chunk false).
      * done.
  - pose proof (step_line s line ls Hrd Hpend) as Hstep.
    unfold afterLine in Hstep. cbn [readLines].
    destruct (handleLine line) as [| |chunk|chunk].
    + destruct (IH (becomes s ls Reading)) as (s' & Hreach & Hrest); try done.
      exists s'. split; [|done].
      eapply reachable_trans; [|exact Hreach].
      eapply reach_step; [apply reach_start | exact Hstep].
    + eexists. split; [eapply reach_step; [apply reach_start | exact Hstep]|].
      simpl. by rewrite app_nil_r.
    + destruct (IH (afterReceive (becomes s ls (Sending chunk true)) chunk true))
        as (s' & Hreach & Hexit & Hchan & Hrecv); try done.
      exists s'. split_and!; [|done|done|].
      * eapply reachable_trans; [|exact Hreach].
        eapply reach_step; [eapply reach_step; [apply reach_start | exact Hstep]|].
        by apply step_receive.
      * rewrite Hrecv. simpl. by rewrite <- app_assoc.
    + eexists. split.
      * eapply reach_step; [eapply reach_step; [apply reach_start | exact Hstep]|].
        by apply (step_receive _ chunk false).
      * done.
Qed.

(** A goroutine that waits for a line that does not come, with the
    body open, takes no turn. *)
Lemma blocked_in_read s l s' :
  rd s = Reading -> pending s = [] -> bodyEnd s = Stalls ->
  closed s = false -> cancelled s = false ->
  step l s s' -> l = Cancels.
Proof.
  intros Hrd Hpend Hend Hcl Hc Hstep.
  destruct Hstep as [s | s Hc' Hw | s line ls Hrd' Hpend' | s failure Hrd' Hfail
                    | s chunk again Hrd']; try congruence.
  destruct Hfail; congruence.
Qed.

(** C5. In every state a stream can reach, whatever the moments of
    cancellation: what the consumer has received, with the chunk being
    sent if there is one, is the beginning of what the stream sends
    when nothing is cancelled, so no chunk describes a cancellation; a
    read that fails while the context is cancelled makes the goroutine
    exit and close the channel with nothing sent; and once the context
    is cancelled the watcher closes the body, after which the read of
    the goroutine fails, so that it exits and closes the channel, with
    nothing sent. *)
Theorem cancellation_sends_no_chunk (body : list string) (e : ending) s :
  reachable (start body e) s ->
  (received s ++ match rd s with Sending chunk _ => [chunk] | _ => [] end)%list
    `prefix_of` uncancelled body e
  /\ (forall failure s',
        cancelled s = true -> step (ReadFails failure) s s' ->
        rd s' = Exited /\ chanClosed s' = true /\ received s' = received s)
  /\ (cancelled s = true -> watching s = true -> rd s = Reading ->
      exists s1 failure s2,
        step WatcherCloses s s1 /\ closed s1 = true /\ rd s1 = Reading
        /\ received s1 = received s
        /\ step (ReadFails failure) s1 s2
        /\ rd s2 = Exited /\ chanClosed s2 = true /\ received s2 = received s).
Proof.
  intros Hreach. apply invariant_reachable in Hreach as (Htail & Hclosed & Hchan & Hout).
  split_and!.
  - destruct (rd s) as [|chunk [|]|].
    + rewrite app_nil_r. by eexists.
    + rewrite <- Hout. exists (readLines (pending s) (lastTurn e)).
      by rewrite <- app_assoc.
    + rewrite <- Hout. done.
    + by rewrite app_nil_r.
  - intros failure s' Hc Hstep. inversion Hstep as [| | |s0 f Hrd Hfail|]; subst.
    unfold afterFailure. rewrite readFailed_cancelled by done. done.
  - intros Hc Hw Hrd.
    pose proof (step_watcher s Hc Hw) as Hwatch.
    eexists _, _, _. split; [exact Hwatch|].
    split; [done|]. split; [done|]. split; [done|].
    split; [apply step_fail; [done | by apply fail_closed]|].
    unfold afterFailure. rewrite readFailed_cancelled by done. done.
Qed.

End Interleaving.

(** *** Frames *)

Section Frames.

Context {P : Type} `{!json.Unmarshaler P}.

Lemma handleLine_done : handleLine (P := P) doneLine = Done.
Proof. vm_compute. reflexivity. Qed.

Lemma handleLine_other (line : string) :
  wellFormed (P := P) (Other line) = true ->
  handleLine (P := P) (wireLine (Other line)) = Skip.
Proof.
  simpl. intros [_ Hpre]%andb_true_iff. unfold handleLine. by rewrite Hpre.
Qed.

Lemma handleLine_frame (payload : string) :
  wellFormed (P := P) (Frame payload) = true ->
  markerFree (Frame payload) = true ->
  exists chunk,
    json.Unmarshal payload = Ok chunk
    /\ handleLine (wireLine (Frame payload)) = Emit (StreamChunk.mk chunk None).
Proof.
  simpl. intros [[[Hone Hend]%andb_true_iff _]%andb_true_iff Hdec]%andb_true_iff.
  intros Hfree%negb_true_iff.
  destruct (json.Unmarshal (T := P) payload) as [chunk|] eqn:Hchunk; [|done].
  exists chunk. split; [done|].
  unfold handleLine. rewrite (TrimSpace_frame _ Hend).
  rewrite HasPrefix_append, TrimPrefix_append. simpl negb. cbv iota.
  destruct (String.eqb payload "[DONE]") eqn:Hdone.
  - apply String.eqb_eq in Hdone. subst payload. vm_compute in Hend. done.
  - unfold errorFrame. rewrite Hfree. by rewrite Hchunk.
Qed.

Lemma readLines_wire (items : list item) (more : string) (last : list (StreamChunk.t P)) :
  forallb (wellFormed (P := P)) items = true ->
  forallb markerFree items = true ->
  readLines (bufio.lines (wire items +:+ more)).1 last
  = (contentChunks items ++ readLines (bufio.lines more).1 last)%list.
Proof.
  induction items as [|it items IH]; intros Hwf Hfree; [done|].
  simpl in Hwf. apply andb_true_iff in Hwf as [Hit Hwf].
  cbn [forallb] in Hfree. apply andb_true_iff in Hfree as [Hitfree Hfree].
  change (wire (it :: items)) with (wireLine it +:+ wire items).
  rewrite append_assoc, lines_wireLine.
  2:{ destruct it; simpl in Hit; repeat (apply andb_true_iff in Hit as [Hit _]); done. }
  cbn [fst readLines]. destruct it as [payload|line].
  - destruct (handleLine_frame _ Hit Hitfree) as (chunk & Hchunk & ->).
    cbn [contentChunks]. rewrite Hchunk. cbn [app]. by rewrite IH.
  - rewrite (handleLine_other _ Hit). cbn [contentChunks]. by apply IH.
Qed.

Lemma contentChunks_length (items : list item) :
  forallb (wellFormed (P := P)) items = true ->
  length (contentChunks (P := P) items) = length (List.filter isFrame items)
  /\ Forall (fun chunk => StreamChunk.Err chunk = None) (contentChunks (P := P) items).
Proof.
  induction items as [|it items IH]; intros Hwf; [by split|].
  simpl in Hwf. apply andb_true_iff in Hwf as [Hit Hwf].
  destruct (IH Hwf) as [Hlen Herr]. destruct it as [payload|line]; [|done].
  simpl in Hit. apply andb_true_iff in Hit as [_ Hdec].
  cbn [contentChunks].
  destruct (json.Unmarshal (T := P) payload) as [chunk|]; [|done].
  simpl. split; [by rewrite Hlen | by constructor].
Qed.

(** X20. A stream of well-formed content-delta frames, none of which
    holds the byte sequence the decoder looks for, and other lines
    that are no data lines, then the terminal token, whatever follows
    it: the decoder sends the chunks of the frames, as many as there
    are frames, in the order of the wire, none of them an error, and
    nothing for the terminal token; and when the consumer receives
    them all, the goroutine exits and closes the channel after the
    last of them. *)
Theorem reader_frames_then_done (items : list item) (rest : string)
    (failure : option string) (ctx : context.Context) :
  forallb (wellFormed (P := P)) items = true ->
  forallb markerFree items = true ->
  reader {| io.data := wire items +:+ doneLine +:+ rest; io.failure := failure |} ctx
  = contentChunks items
  /\ length (contentChunks (P := P) items) = length (List.filter isFrame items)
  /\ Forall (fun chunk => StreamChunk.Err chunk = None) (contentChunks (P := P) items)
  /\ exists s,
       reachable (start (bufio.lines (wire items +:+ doneLine +:+ rest)).1 (Ends failure)) s
       /\ rd s = Exited /\ chanClosed s = true /\ received s = contentChunks items.
Proof.
  intros Hwf Hfree.
  assert (forall last,
            readLines (bufio.lines (wire items +:+ doneLine +:+ rest)).1 last
            = contentChunks (P := P) items) as Hlines.
  { intros last. rewrite (readLines_wire _ _ _ Hwf Hfree).
    unfold doneLine at 1. rewrite append_assoc.
    change (String strings.LF EmptyString +:+ rest) with (String strings.LF rest).
    rewrite lines_line by reflexivity. cbn [fst readLines].
    change ("data: [DONE]" +:+ String strings.LF EmptyString) with doneLine.
    rewrite handleLine_done. apply app_nil_r. }
  split; [apply Hlines|].
  destruct (contentChunks_length _ Hwf) as [Hlen Herr].
  split; [done|]. split; [done|].
  destruct (run_to_the_end (bufio.lines (wire items +:+ doneLine +:+ rest)).1 failure
              (start (bufio.lines (wire items +:+ doneLine +:+ rest)).1 (Ends failure)))
    as (s & Hreach & Hexit & Hchan & Hrecv); try done.
  exists s. split_and!; try done. rewrite Hrecv. simpl. apply Hlines.
Qed.

End Frames.

(** [TestChat_Stream_Success]. *)
Lemma reader_frames_then_done_witness :
  forallb (wellFormed (P := Chunk))
    [Frame (json.js "{'choices': [{'delta': {'content': 'Hello'}}]}");
     Other EmptyString;
     Frame (json.js "{'choices': [{'delta': {'content': '!'}}]}");
     Other EmptyString] = true
  /\ reader (P := Chunk) {| io.data := helloStream; io.failure := None |} context.Background
     = [StreamChunk.mk {| Choices := [{| delta := {| Content := "Hello" |} |}] |} None;
        StreamChunk.mk {| Choices := [{| delta := {| Content := "!" |} |}] |} None].
Proof.
  assert (forallb (wellFormed (P := Chunk))
            [Frame (json.js "{'choices': [{'delta': {'content': 'Hello'}}]}");
             Other EmptyString;
             Frame (json.js "{'choices': [{'delta': {'content': '!'}}]}");
             Other EmptyString] = true) as Hwf
    by (vm_compute; reflexivity).
  assert (forallb markerFree
            [Frame (json.js "{'choices': [{'delta': {'content': 'Hello'}}]}");
             Other EmptyString;
             Frame (json.js "{'choices': [{'delta': {'content': '!'}}]}");
             Other EmptyString] = true) as Hfree
    by (vm_compute; reflexivity).
  split; [exact Hwf|].
  exact (proj1 (reader_frames_then_done (P := Chunk) _ LF None context.Background
                  Hwf Hfree)).
Defined.

(** C4, at a stream of two content deltas and the terminal token. Both
    frames are well-formed content deltas, one line each, a JSON
    object with no member named [error], at any depth, that decodes
    into a chunk, with a blank line after each; the chunks of the
    frames are two, [hi] and [Hello]. The first payload has a member
    whose name ends in a quote and the word error, so it holds the
    byte sequence the decoder looks for and decodes into an API Error
    with no field set: the decoder sends one chunk, which carries that
    error, and nothing else, neither [hi] nor [Hello]. *)
Theorem reader_content_delta_as_error_frame :
  forallb (wellFormed (P := Chunk)) quirkItems = true
  /\ (exists v, json.parse quirkPayload = Ok v /\ mentionsErrorKey v = false)
  /\ contentChunks (P := Chunk) quirkItems = [hi; hello]
  /\ length (List.filter isFrame quirkItems) = 2%nat
  /\ forallb markerFree quirkItems = false
  /\ reader (P := Chunk)
       {| io.data := wire quirkItems +:+ doneLine; io.failure := None |}
       context.Background
     = [StreamChunk.mk {| Choices := [] |}
          (Some (APIErr (APIError.mk 0 EmptyString EmptyString None)))].
Proof.
  split_and!; try (vm_compute; reflexivity).
  eexists. split; vm_compute; reflexivity.
Qed.

(** C3, at four payloads. A content delta with no [error] key of its
    own, but one inside a choice, ends the stream as an error chunk,
    and so does one with no [error] key at any depth, but a key that
    ends in a quote and the word. A payload with an [error] key that a
    space separates from its colon is sent as a content chunk, and the
    frames after it are read and sent; so is a payload whose [error]
    key holds an object. *)
Theorem handleLine_error_frames_by_substring :
  (hasErrorKey (json.js "{'choices':[{'delta':{'content':'hi'},'error':null}]}") = false
   /\ handleLine (P := Chunk)
        (json.js "data: {'choices':[{'delta':{'content':'hi'},'error':null}]}" +:+ LF)
      = Final (StreamChunk.mk {| Choices := [] |}
                 (Some (APIErr (APIError.mk 0 EmptyString EmptyString None)))))
  /\ (json.parse (json.js "{'choices':[{'delta':{'content':'hi'}}],'x\'error':1}")
      = Ok (json.Object
              [("choices",
                json.Array
                  [json.Object [("delta", json.Object [("content", json.Str "hi")])]]);
               (json.js "x'error", json.Number "1")])
      /\ mentionsErrorKey
           (json.Object
              [("choices",
                json.Array
                  [json.Object [("delta", json.Object [("content", json.Str "hi")])]]);
               (json.js "x'error", json.Number "1")]) = false
      /\ handleLine (P := Chunk)
           (json.js "data: {'choices':[{'delta':{'content':'hi'}}],'x\'error':1}" +:+ LF)
         = Final (StreamChunk.mk {| Choices := [] |}
                    (Some (APIErr (APIError.mk 0 EmptyString EmptyString None)))))
  /\ (hasErrorKey (json.js "{'error' : 'boom', 'code': 'PROVIDER_ERROR'}") = true
      /\ reader (P := Chunk)
           {| io.data :=
                json.js "data: {'error' : 'boom', 'code': 'PROVIDER_ERROR'}" +:+ LF +:+ LF
                +:+ json.js "data: {'choices': [{'delta': {'content': 'more'}}]}"
                +:+ LF +:+ LF;
              io.failure := None |} context.Background
         = [StreamChunk.mk {| Choices := [] |} None;
            StreamChunk.mk {| Choices := [{| delta := {| Content := "more" |} |}] |} None])
  /\ (hasErrorKey (json.js "{'error':{'message':'boom'}}") = true
      /\ handleLine (P := Chunk) (json.js "data: {'error':{'message':'boom'}}" +:+ LF)
         = Emit (StreamChunk.mk {| Choices := [] |} None)).
Proof. repeat split; vm_compute; reflexivity. Qed.

(** *** [TestChat_Stream_ContextCancel] *)

Lemma stalled_reachable : reachable (start [helloLine; LF] Stalls) (stalled true).
Proof.
  eapply (reach_step _ (stalled false) _ Cancels); [|apply (step_cancel (stalled false))].
  eapply (reach_step _ _ _ (ReadsLine LF)).
  2:{ replace (stalled false)
        with (afterLine {| cancelled := false; closed := false; watching := true;
                           pending := [LF]; bodyEnd := Stalls; rd := Reading;
                           received := [hello]; chanClosed := false |} LF [])
        by (vm_compute; reflexivity).
      by apply step_line. }
  eapply (reach_step _ _ _ Receives).
  2:{ apply (step_receive {| cancelled := false; closed := false; watching := true;
                             pending := [LF]; bodyEnd := Stalls; rd := Sending hello true;
                             received := []; chanClosed := false |} hello true).
      reflexivity. }
  eapply (reach_step _ _ _ (ReadsLine helloLine)); [apply reach_start|].
  replace {| cancelled := false; closed := false; watching := true;
             pending := [LF]; bodyEnd := Stalls; rd := Sending hello true;
             received := []; chanClosed := false |}
    with (afterLine (start [helloLine; LF] Stalls) helloLine [LF])
    by (vm_compute; reflexivity).
  by apply step_line.
Qed.

(** Until the context is cancelled, the goroutine that waits for the
    next line takes no turn. *)
Lemma stalled_is_blocked (l : label) (s' : state (P := Chunk)) :
  step l (stalled false) s' -> l = Cancels.
Proof. by apply blocked_in_read. Qed.

Lemma cancellation_sends_no_chunk_witness :
  reachable (start [helloLine; LF] Stalls) (stalled true)
  /\ exists s1 failure s2,
       step WatcherCloses (stalled true) s1 /\ closed s1 = true /\ rd s1 = Reading
       /\ received s1 = [hello]
       /\ step (ReadFails failure) s1 s2
       /\ rd s2 = Exited /\ chanClosed s2 = true /\ received s2 = [hello].
Proof.
  split; [exact stalled_reachable|].
  exact (proj2 (proj2 (cancellation_sends_no_chunk _ _ _ stalled_reachable))
           eq_refl eq_refl eq_refl).
Defined.

(** ** More of the executor and of the decoder *)

Lemma doRequest_read_error_witness :
  doRequest (Req := nobody) (Resp := json.value)
    (clientOf (brokenServer 502 "<html>Bad gate" "unexpected EOF"))
    context.Background "GET" "/test" None
  = Fail (APIErr (APIError.mk 502 "READ_ERROR"
                    "failed to read response body: unexpected EOF" None)).
Proof.
  apply (doRequest_read_error (Req := nobody) (Resp := json.value)
                    APIError.unmarshaler
           (clientOf (brokenServer 502 "<html>Bad gate" "unexpected EOF"))
           context.Background "GET" "/test" None
           {| http.StatusCode := 502;
              http.RespBody := {| io.data := "<html>Bad gate";
                                  io.failure := Some "unexpected EOF" |} |}
           "unexpected EOF").
  - vm_compute; reflexivity.
  - simpl. unfold http.StatusOK. lia.
  - reflexivity.
Defined.

(** [TestDoRequest_429MapsToErrRateLimited]: the error does not match
    [ErrRateLimited]. *)
Lemma doRequest_matches_no_sentinel_witness :
  doRequest (Req := nobody) (Resp := json.value)
    (clientOf (server 429 rateLimitBody)) context.Background "GET" "/test" None
  = Fail (APIErr (APIError.mk 429 "RATE_LIMIT_EXCEEDED" "Too many requests" None))
  /\ errors.Is (APIErr (APIError.mk 429 "RATE_LIMIT_EXCEEDED" "Too many requests" None))
       (Sentinel ErrRateLimited) = false.
Proof.
  assert (doRequest (Req := nobody) (Resp := json.value)
            (clientOf (server 429 rateLimitBody)) context.Background "GET" "/test" None
          = Fail (APIErr (APIError.mk 429 "RATE_LIMIT_EXCEEDED" "Too many requests" None)))
    as Hcode by (vm_compute; reflexivity).
  split; [exact Hcode|].
  exact (doRequest_matches_no_sentinel (Req := nobody) (Resp := json.value)
           _ _ _ _ _ _ ErrRateLimited Hcode).
Defined.

Lemma lines_unterminated (partial : string) :
  oneLine partial = true -> bufio.lines partial = ([], partial).
Proof.
  induction partial as [|c r IH]; [done|]. simpl.
  intros [Hc Hr]%andb_true_iff. rewrite (IH Hr).
  apply negb_true_iff in Hc. by rewrite Hc.
Qed.

Section Endings.

Context {P : Type} `{!json.Unmarshaler P}.

(** X4. A stream of well-formed content-delta frames, none of which
    holds the byte sequence the decoder looks for, and other lines
    that are no data lines, which ends with no terminal token: the
    decoder sends the chunks of the frames and
    then what the failed read calls for, nothing at the end of the
    file or when the context is cancelled, one error chunk for any
    other read error. What the body holds after its last line feed is
    never decoded. *)
Theorem reader_without_done (items : list item) (partial : string)
    (failure : option string) (ctx : context.Context) :
  forallb (wellFormed (P := P)) items = true ->
  forallb markerFree items = true ->
  oneLine partial = true ->
  reader {| io.data := wire items +:+ partial; io.failure := failure |} ctx
  = (contentChunks items ++ readFailed ctx failure)%list
  /\ (failure = None \/ context.Err ctx <> None ->
      reader {| io.data := wire items +:+ partial; io.failure := failure |} ctx
      = contentChunks items)
  /\ (forall err, failure = Some err -> context.Err ctx = None ->
      reader {| io.data := wire items +:+ partial; io.failure := failure |} ctx
      = (contentChunks items
         ++ [StreamChunk.mk json.zero
               (Some (Errorf "stream read: " (Leaf (Foreign err))))])%list).
Proof.
  intros Hwf Hfree Hpartial.
  assert (reader {| io.data := wire items +:+ partial; io.failure := failure |} ctx
          = (contentChunks items ++ readFailed ctx failure)%list) as Hreader.
  { unfold reader. cbn [io.data io.failure].
    rewrite (readLines_wire _ _ _ Hwf Hfree), (lines_unterminated _ Hpartial). done. }
  rewrite Hreader. split; [done|]. split.
  - unfold readFailed. intros [->|Hctx].
    + destruct (context.Err ctx); by rewrite app_nil_r.
    + destruct (context.Err ctx); [by rewrite app_nil_r | done].
  - intros err -> Hctx. unfold readFailed. by rewrite Hctx.
Qed.

(** X5. A data line whose payload is no error frame and does not
    decode into the chunk payload ends the stream with one error
    chunk, the decode error wrapped. *)
Theorem handleLine_unmarshal_failure (line data err : string) :
  strings.TrimSpace line = "data: " +:+ data ->
  data <> "[DONE]" ->
  errorFrame data = None ->
  json.Unmarshal (T := P) data = Fail err ->
  handleLine (P := P) line
  = Final (StreamChunk.mk json.zero
             (Some (Errorf "unmarshal chunk: " (Leaf (Foreign err))))).
Proof.
  intros Htrim Hdone Hframe Hdec. unfold handleLine. rewrite Htrim.
  rewrite HasPrefix_append, TrimPrefix_append. simpl negb. cbv iota.
  apply String.eqb_neq in Hdone. by rewrite Hdone, Hframe, Hdec.
Qed.

End Endings.

(** A stream that breaks off in the middle of its second frame,
    with the context live and with the context cancelled. *)
Lemma reader_without_done_witness :
  reader (P := Chunk)
    {| io.data := helloLine +:+ "data: {";
       io.failure := Some "unexpected EOF" |} context.Background
  = [hello;
     StreamChunk.mk {| Choices := [] |}
       (Some (Errorf "stream read: " (Leaf (Foreign "unexpected EOF"))))]
  /\ reader (P := Chunk)
       {| io.data := helloLine +:+ "data: {";
          io.failure := Some "unexpected EOF" |}
       {| context.Err := Some "context canceled" |}
     = [hello].
Proof.
  assert (forallb (wellFormed (P := Chunk))
            [Frame (json.js "{'choices': [{'delta': {'content': 'Hello'}}]}")] = true)
    as Hwf by (vm_compute; reflexivity).
  assert (forallb markerFree
            [Frame (json.js "{'choices': [{'delta': {'content': 'Hello'}}]}")] = true)
    as Hfree by (vm_compute; reflexivity).
  assert (Some "unexpected EOF" = None
          \/ context.Err {| context.Err := Some "context canceled" |} <> None) as Hctx
    by (right; discriminate).
  split.
  - etransitivity;
      [exact (proj1 (reader_without_done (P := Chunk)
                       [Frame (json.js "{'choices': [{'delta': {'content': 'Hello'}}]}")]
                       "data: {" (Some "unexpected EOF") context.Background
                       Hwf Hfree eq_refl))
      | vm_compute; reflexivity].
  - etransitivity;
      [exact (proj1 (proj2 (reader_without_done (P := Chunk)
                              [Frame (json.js "{'choices': [{'delta': {'content': 'Hello'}}]}")]
                              "data: {" (Some "unexpected EOF")
                              {| context.Err := Some "context canceled" |}
                              Hwf Hfree eq_refl))
                Hctx)
      | vm_compute; reflexivity].
Defined.

Lemma handleLine_unmarshal_failure_witness :
  handleLine (P := Chunk) ("data: {not json" +:+ LF)
  = Final (StreamChunk.mk {| Choices := [] |}
             (Some (Errorf "unmarshal chunk: "
                      (Leaf (Foreign "invalid character or unexpected end of JSON input"))))).
Proof.
  etransitivity.
  - apply (handleLine_unmarshal_failure (P := Chunk) ("data: {not json" +:+ LF) "{not json"
             "invalid character or unexpected end of JSON input");
      [vm_compute; reflexivity | discriminate
      | vm_compute; reflexivity | vm_compute; reflexivity].
  - vm_compute; reflexivity.
Defined.

(** ** The constructor of the client *)

(** The options of a call settle the fields one after the other, the
    later over the earlier. *)
Lemma fold_settings (sts : list setting) (o : ClientOptions.t) :
  fold_left (fun o (opt : Option) => opt o) (map optionOf sts) o
  = ClientOptions.mk (default (ClientOptions.ApiKey o) (lastApiKey sts))
      (default (ClientOptions.BaseURL o) (lastBaseURL sts))
      (ClientOptions.Timeout o).
Proof.
  revert o. induction sts as [|st sts IH]; intros o; [by destruct o|].
  simpl. rewrite IH.
  destruct st, (lastApiKey sts), (lastBaseURL sts); reflexivity.
Qed.

(** X6. [NewClient] over any list of the options the package exports:
    it fails, with the message of the missing key, when no option
    gives an API key or the last one that does gives the empty string;
    otherwise the client has the last API key given, the last base URL
    given or the default one, and an HTTP client whose timeout is 30
    seconds, which no option changes. *)
Theorem NewClient_settings (dial : Z -> http.Client) (sts : list setting) :
  NewClient dial (map optionOf sts)
  = match lastApiKey sts with
    | None | Some EmptyString =>
        Fail (Leaf (Foreign "You need a valid API Key to use this client"))
    | Some apiKey =>
        Ok {| ApiKey := apiKey;
              BaseURL := default "https://cencori.com" (lastBaseURL sts);
              httpClient := dial 30000000000 |}
    end.
Proof.
  unfold NewClient. rewrite fold_settings. simpl.
  destruct (lastApiKey sts) as [[|c k]|]; reflexivity.
Qed.

(** ** The request of the executor *)

Section Requests.

Context {Req Resp : Type} `{!json.Marshaler Req} `{!json.Unmarshaler Resp}.
Context (shape : json.Unmarshaler APIError.t).

(** X7. [doRequest] sends one request, and it is all of the transport
    the call depends on: the method and the path of the caller on
    the base URL, the API key in the header [CENCORI_API_KEY], the
    content type [application/json], and the encoded body. A
    transport that answers the requests of that form alike gives the
    same outcome. *)
Theorem doRequest_requests (c : Client) (net : http.Client) (ctx : context.Context)
    (method path : string) (body : option Req) :
  http.NewRequest net = http.NewRequest (httpClient c) ->
  (forall req,
     http.Method req = method ->
     http.URL req = BaseURL c +:+ path ->
     http.Header req !! "CENCORI_API_KEY" = Some (ApiKey c) ->
     http.Header req !! "Content-Type" = Some "application/json" ->
     http.Body req = encoded body ->
     http.Do net ctx req = http.Do (httpClient c) ctx req) ->
  doRequest (Resp := Resp) (shape := shape)
    {| ApiKey := ApiKey c; BaseURL := BaseURL c; httpClient := net |} ctx method path body
  = doRequest (Resp := Resp) (shape := shape) c ctx method path body.
Proof.
  intros Hnew Hdo. unfold doRequest. f_equal.
  unfold exchange, http.NewRequestWithContext. simpl. rewrite Hnew.
  destruct body as [b|]; simpl.
  - destruct (json.Marshal b) as [data|] eqn:Hdata; simpl; [|done].
    destruct (http.NewRequest (httpClient c) method (BaseURL c +:+ path)); simpl; [done|].
    rewrite Hdo; [done|done|done|..].
    + simpl. by rewrite lookup_insert_eq.
    + simpl. rewrite lookup_insert_ne by done. by rewrite lookup_insert_eq.
    + simpl. by rewrite Hdata.
  - destruct (http.NewRequest (httpClient c) method (BaseURL c +:+ path)); simpl; [done|].
    rewrite Hdo; [done|done|done|..].
    + simpl. by rewrite lookup_insert_eq.
    + simpl. rewrite lookup_insert_ne by done. by rewrite lookup_insert_eq.
    + done.
Qed.

(** X8. An API Error comes out of [doRequest] only for a response
    that was received with a status other than 200, it is the error
    itself, not wrapped, and it carries the status of that response:
    the errors of the encoding, of the request, of the transport and
    of the decoding of a 200 body are no API Errors. *)
Theorem doRequest_APIError_origin (c : Client) (ctx : context.Context)
    (method path : string) (body : option Req) (err : error) (e : APIError.t) :
  doRequest (Resp := Resp) (shape := shape) c ctx method path body = Fail err ->
  errors.AsAPIError err = Some e ->
  err = APIErr e
  /\ exists resp,
       exchange c ctx method path body = Ok resp
       /\ http.StatusCode resp <> http.StatusOK
       /\ APIError.StatusCode e = http.StatusCode resp.
Proof.
  unfold doRequest.
  destruct (exchange c ctx method path body) as [resp|err'] eqn:Hex; simpl.
  - unfold respond. destruct (negb _) eqn:Hstatus.
    + apply negb_true_iff, Z.eqb_neq in Hstatus.
      destruct (io.ReadAll _) as [raw|]; [destruct (@json.Unmarshal APIError.t shape raw)|];
        intros [= <-] [= <-]; (split; [done|]); exists resp; done.
    + destruct (json.Decode _); [done|]. by intros [= <-].
  - intros [= <-] Has. by rewrite (exchange_no_APIError _ _ _ _ _ _ Hex) in Has.
Qed.

End Requests.

(** [TestDoRequest_Sucess]: the server of the test checks the API key
    of the request, and the client sends it. *)
Lemma doRequest_requests_witness :
  doRequest (Req := nobody) (Resp := json.value) (shape := APIError.unmarshaler)
    {| ApiKey := "test-key"; BaseURL := "http://127.0.0.1";
       httpClient := keyServer "test-key" 200 (json.js "{'id':'test-id'}") |}
    context.Background "GET" "/test" None
  = doRequest (Req := nobody) (Resp := json.value) (shape := APIError.unmarshaler)
      (clientOf (server 200 (json.js "{'id':'test-id'}")))
      context.Background "GET" "/test" None.
Proof.
  apply (doRequest_requests (Req := nobody) (Resp := json.value) APIError.unmarshaler
           (clientOf (server 200 (json.js "{'id':'test-id'}")))
           (keyServer "test-key" 200 (json.js "{'id':'test-id'}"))
           context.Background "GET" "/test" None).
  - reflexivity.
  - intros req _ _ Hkey _ _. simpl. simpl in Hkey. rewrite Hkey. reflexivity.
Defined.

Lemma doRequest_APIError_origin_witness :
  APIErr (APIError.mk 401 "INVALID_API_KEY" "Invalid API key" None)
  = APIErr (APIError.mk 401 "INVALID_API_KEY" "Invalid API key" None)
  /\ exists resp,
       exchange (Req := nobody) (clientOf (server 401 invalidKeyBody))
         context.Background "GET" "/test" None = Ok resp
       /\ http.StatusCode resp <> http.StatusOK
       /\ APIError.StatusCode (APIError.mk 401 "INVALID_API_KEY" "Invalid API key" None)
          = http.StatusCode resp.
Proof.
  assert (doRequest (Req := nobody) (Resp := json.value) (shape := APIError.unmarshaler)
            (clientOf (server 401 invalidKeyBody)) context.Background "GET" "/test" None
          = Fail (APIErr (APIError.mk 401 "INVALID_API_KEY" "Invalid API key" None)))
    as Hcode by (vm_compute; reflexivity).
  exact (doRequest_APIError_origin (Req := nobody) (Resp := json.value)
           APIError.unmarshaler _ _ _ _ _ _ _ Hcode eq_refl).
Defined.

(** ** The operations of the chat service *)

Section FacadeProps.

Context {ChatResponse : Type} `{!json.Unmarshaler ChatResponse}.
Context `{!json.Marshaler ChatParams.t}.

(** X9. [Completions] is [doRequest] on [POST /api/ai/chat] with a
    chat request of its own: the model, one message of role [user]
    that holds the prompt, the temperature and the token limit of the
    caller, and no streaming. It returns, and what the caller's store
    held before the call it holds after it. *)
Theorem Completions_request (s : ChatService) (ctx : context.Context)
    (params : CompletionParams.t) (h : gmap loc ChatParams.t) :
  (Completions (ChatResponse := ChatResponse) s ctx params h).2
  = Returns (doRequest (client s) ctx "POST" "/api/ai/chat"
               (Some (ChatParams.mk (CompletionParams.Model params)
                        [Build_Message "user" (CompletionParams.Prompt params)]
                        (CompletionParams.Temperature params)
                        (CompletionParams.MaxTokens params) false)))
  /\ forall l p, h !! l = Some p ->
       (Completions (ChatResponse := ChatResponse) s ctx params h).1 !! l = Some p.
Proof.
  unfold Completions, Create.
  set (l0 := fresh (dom h)).
  assert (h !! l0 = None) as Hfresh.
  { apply not_elem_of_dom. apply is_fresh. }
  rewrite lookup_insert_eq. simpl. rewrite lookup_insert_eq. split; [done|].
  intros l p Hl. rewrite insert_insert_eq.
  rewrite lookup_insert_ne; [done|]. intros <-. congruence.
Qed.

(** X10. When [Stream] returns a channel, the body its goroutine
    reads is the body of a response with status 200 to one request:
    [POST /api/ai/chat] on the base URL, whose body is the encoding of
    the caller's parameters with [Stream] set, and which carries the
    API key, the content type and [Accept: text/event-stream]. *)
Theorem Stream_channel (s : ChatService) (ctx : context.Context)
    (l : loc) (h : gmap loc ChatParams.t) (p : ChatParams.t) (body : io.Body) :
  h !! l = Some p ->
  (Stream s ctx (Some l) h).2 = Returns (Ok body) ->
  exists jsonData req resp,
    json.Marshal (ChatParams.withStream p true) = Ok jsonData
    /\ http.Do (httpClient (client s)) ctx req = Ok resp
    /\ http.StatusCode resp = http.StatusOK
    /\ http.RespBody resp = body
    /\ http.Method req = "POST"
    /\ http.URL req = BaseURL (client s) +:+ "/api/ai/chat"
    /\ http.Body req = Some jsonData
    /\ http.Header req !! "Accept" = Some "text/event-stream"
    /\ http.Header req !! "CENCORI_API_KEY" = Some (ApiKey (client s))
    /\ http.Header req !! "Content-Type" = Some "application/json".
Proof.
  intros Hl. unfold Stream. rewrite Hl. simpl.
  destruct (json.Marshal (ChatParams.withStream p true)) as [jsonData|] eqn:Hdata;
    simpl; [|done].
  unfold http.NewRequestWithContext.
  destruct (http.NewRequest _ _ _); simpl; [done|].
  match goal with |- context [http.Do _ _ ?r] => set (req := r) end.
  destruct (http.Do (httpClient (client s)) ctx req) as [resp|] eqn:Hdo; simpl; [|done].
  destruct (http.StatusCode resp =? http.StatusOK) eqn:Hstatus; simpl; [|done].
  intros [= <-]. exists jsonData, req, resp.
  apply Z.eqb_eq in Hstatus. split_and!; done.
Qed.

End FacadeProps.

(** [TestChat_Stream_Success]: the body the goroutine reads is the
    body the server wrote. *)
Lemma Stream_channel_witness :
  exists jsonData req resp,
    json.Marshal
      (ChatParams.withStream (ChatParams.mk "gpt-4o" [] None None false) true)
    = Ok jsonData
    /\ http.Do (server 200 helloStream) context.Background req = Ok resp
    /\ http.StatusCode resp = http.StatusOK
    /\ http.RespBody resp = {| io.data := helloStream; io.failure := None |}
    /\ http.Method req = "POST"
    /\ http.URL req = "http://127.0.0.1" +:+ "/api/ai/chat"
    /\ http.Body req = Some jsonData
    /\ http.Header req !! "Accept" = Some "text/event-stream"
    /\ http.Header req !! "CENCORI_API_KEY" = Some "test-key"
    /\ http.Header req !! "Content-Type" = Some "application/json".
Proof.
  assert ((Stream {| client := clientOf (server 200 helloStream) |} context.Background
             (Some 1%positive) {[ 1%positive := ChatParams.mk "gpt-4o" [] None None false ]}).2
          = Returns (Ok {| io.data := helloStream; io.failure := None |})) as Hstream
    by (vm_compute; reflexivity).
  assert (({[ 1%positive := ChatParams.mk "gpt-4o" [] None None false ]}
             : gmap loc ChatParams.t) !! 1%positive
          = Some (ChatParams.mk "gpt-4o" [] None None false)) as Hparams
    by (vm_compute; reflexivity).
  exact (Stream_channel {| client := clientOf (server 200 helloStream) |}
           context.Background 1%positive
           {[ 1%positive := ChatParams.mk "gpt-4o" [] None None false ]}
           (ChatParams.mk "gpt-4o" [] None None false)
           {| io.data := helloStream; io.failure := None |} Hparams Hstream).
Defined.

(** ** More of the stream decoder *)


Lemma lines_append (a b : string) :
  (bufio.lines a).2 = EmptyString ->
  bufio.lines (a +:+ b)
  = (((bufio.lines a).1 ++ (bufio.lines b).1)%list, (bufio.lines b).2).
Proof.
  induction a as [|c r IH]; intros Ha.
  - rewrite append_nil. simpl. by destruct (bufio.lines b).
  - rewrite append_cons. simpl in *.
    destruct (bufio.lines r) as [ls tl] eqn:Hr.
    destruct (Ascii.eqb c strings.LF).
    + simpl in Ha. rewrite (IH Ha). done.
    + destruct ls as [|l ls']; [done|]. simpl in Ha. rewrite (IH Ha). done.
Qed.

Section Reader.

Context {P : Type} `{!json.Unmarshaler P}.

Lemma readLines_app (l1 l2 : list string) (last : list (StreamChunk.t P)) :
  readLines (l1 ++ l2) last = readLines l1 (readLines l2 last).
Proof.
  induction l1 as [|line l1 IH]; [done|]. simpl.
  destruct (handleLine line); by rewrite ?IH.
Qed.

(** X12. The terminal token ends the stream: when the body holds
    whole lines, then the line of the token, the decoder sends what it
    sends for those lines alone followed by a clean end of the body.
    What the body holds after the token, how the body ends and whether
    the context is cancelled change nothing. *)
Theorem reader_stops_at_done (a rest : string) (failure : option string)
    (ctx : context.Context) :
  (bufio.lines a).2 = EmptyString ->
  reader (P := P) {| io.data := a +:+ doneLine +:+ rest; io.failure := failure |} ctx
  = reader (P := P) {| io.data := a; io.failure := None |} context.Background.
Proof.
  intros Ha. unfold reader. cbn [io.data io.failure].
  rewrite (lines_append _ _ Ha). cbn [fst]. rewrite readLines_app.
  unfold doneLine at 1. rewrite append_assoc.
  change (String strings.LF EmptyString +:+ rest) with (String strings.LF rest).
  rewrite lines_line by reflexivity. cbn [fst readLines].
  change ("data: [DONE]" +:+ String strings.LF EmptyString) with doneLine.
  by rewrite handleLine_done.
Qed.

Lemma handleLine_Emit (line : string) (chunk : StreamChunk.t P) :
  handleLine line = Emit chunk -> StreamChunk.Err chunk = None.
Proof.
  unfold handleLine. repeat case_match; try done; by intros [= <-].
Qed.

Lemma readLines_error_last (ls : list string) (last : list (StreamChunk.t P)) :
  (forall pre chunk post,
     last = (pre ++ chunk :: post)%list -> StreamChunk.Err chunk <> None -> post = []) ->
  forall pre chunk post,
    readLines ls last = (pre ++ chunk :: post)%list ->
    StreamChunk.Err chunk <> None -> post = [].
Proof.
  intros Hlast. induction ls as [|line ls IH]; [done|]. simpl.
  intros pre chunk post. destruct (handleLine line) as [| |c|c] eqn:Hline.
  - apply IH.
  - by destruct pre.
  - destruct pre as [|c' pre]; simpl.
    + intros [= Hc _] Herr. subst c. apply handleLine_Emit in Hline. contradiction.
    + intros [= _ Hrest] Herr. by apply (IH _ _ _ Hrest).
  - destruct pre as [|c' pre]; simpl.
    + by intros [= _ <-].
    + intros [= _ Hrest]. by destruct pre.
Qed.

(** X13. Whatever the body and the context, a chunk with an error
    is the last chunk of the stream: the decoder sends nothing after
    an error frame, a chunk it cannot decode or a read error. *)
Theorem reader_error_chunk_is_last (body : io.Body) (ctx : context.Context)
    (pre post : list (StreamChunk.t P)) (chunk : StreamChunk.t P) :
  reader body ctx = (pre ++ chunk :: post)%list ->
  StreamChunk.Err chunk <> None ->
  post = [].
Proof.
  unfold reader. apply readLines_error_last.
  intros pre' c post'. unfold readFailed.
  destruct (context.Err ctx); [by destruct pre'|].
  destruct (io.failure body); [|by destruct pre'].
  destruct pre' as [|? pre']; [by intros [= _ <-]|].
  intros [= _ Hrest]. by destruct pre'.
Qed.

(** X3. A data line whose payload is not the terminal token, holds
    the byte sequence the decoder looks for and decodes into an API
    Error ends the stream with one chunk: it carries that API Error
    after [fillSentinel] has run on it, and no line after it is
    read. *)
Theorem handleLine_error_frame (line data : string) (apiErr : APIError.t) :
  strings.TrimSpace line = "data: " +:+ data ->
  data <> "[DONE]" ->
  strings.Contains data errorMarker = true ->
  json.Unmarshal (T := APIError.t) data = Ok apiErr ->
  handleLine (P := P) line
  = Final (StreamChunk.mk json.zero (Some (APIErr (APIError.fillSentinel apiErr))))
  /\ forall (ls : list string) (last : list (StreamChunk.t P)),
       readLines (line :: ls) last
       = [StreamChunk.mk json.zero (Some (APIErr (APIError.fillSentinel apiErr)))].
Proof.
  intros Htrim Hdone Hmarker Hdec.
  assert (handleLine (P := P) line
          = Final (StreamChunk.mk json.zero
                     (Some (APIErr (APIError.fillSentinel apiErr))))) as Hline.
  { unfold handleLine. rewrite Htrim.
    rewrite HasPrefix_append, TrimPrefix_append. simpl negb. cbv iota.
    apply String.eqb_neq in Hdone. rewrite Hdone.
    unfold errorFrame. by rewrite Hmarker, Hdec. }
  split; [exact Hline|]. intros ls last. cbn [readLines]. by rewrite Hline.
Qed.

End Reader.

(** *** White space around a line *)


Lemma asciiSpace_code (d : ascii) :
  strings.asciiSpace d = true -> (strings.code d < 128)%N.
Proof.
  destruct d as [[] [] [] [] [] [] [] []]; vm_compute; congruence.
Qed.

Lemma space2_ascii (c d : ascii) : (strings.code d < 128)%N -> strings.space2 c d = false.
Proof.
  intros Hd. unfold strings.space2.
  replace (strings.code d =? 133)%N with false by (symmetry; apply N.eqb_neq; lia).
  replace (strings.code d =? 160)%N with false by (symmetry; apply N.eqb_neq; lia).
  apply andb_false_r.
Qed.

Lemma space3_ascii (c d e : ascii) :
  (strings.code d < 128)%N \/ (strings.code e < 128)%N -> strings.space3 c d e = false.
Proof.
  intros Hde. unfold strings.space3.
  destruct Hde as [Hd|He].
  - replace (strings.code d =? 154)%N with false by (symmetry; apply N.eqb_neq; lia).
    replace (strings.code d =? 128)%N with false by (symmetry; apply N.eqb_neq; lia).
    replace (strings.code d =? 129)%N with false by (symmetry; apply N.eqb_neq; lia).
    rewrite ?andb_false_r. reflexivity.
  - replace (strings.code e =? 128)%N with false by (symmetry; apply N.eqb_neq; lia).
    replace (strings.code e =? 159)%N with false by (symmetry; apply N.eqb_neq; lia).
    replace (strings.code e =? 168)%N with false by (symmetry; apply N.eqb_neq; lia).
    replace (strings.code e =? 169)%N with false by (symmetry; apply N.eqb_neq; lia).
    replace (strings.code e =? 175)%N with false by (symmetry; apply N.eqb_neq; lia).
    replace (128 <=? strings.code e)%N with false by (symmetry; apply N.leb_gt; lia).
    rewrite ?andb_false_r. reflexivity.
Qed.

Lemma TrimLeftSpace_allSpace (t : string) :
  allSpace t = true -> strings.TrimLeftSpace t = EmptyString.
Proof.
  induction t as [|c r IH]; [done|]. simpl.
  intros [Hc Hr]%andb_true_iff. rewrite Hc. by apply IH.
Qed.

Lemma TrimLeftSpace_append (s t : string) :
  allSpace t = true ->
  strings.TrimLeftSpace (s +:+ t)
  = match strings.TrimLeftSpace s with
    | EmptyString => EmptyString
    | u => u +:+ t
    end.
Proof.
  intros Ht.
  assert (forall d t', t = String d t' -> (strings.code d < 128)%N) as Hhead.
  { intros d t' ->. simpl in Ht. apply andb_true_iff in Ht as [Hd _].
    by apply asciiSpace_code. }
  remember (String.length s) as n eqn:Hn. revert s Hn.
  induction n as [n IH] using (well_founded_induction lt_wf). intros s Hn.
  destruct s as [|c r].
  { rewrite append_nil. by apply TrimLeftSpace_allSpace. }
  rewrite append_cons. simpl strings.TrimLeftSpace.
  destruct (strings.asciiSpace c) eqn:Hc.
  { apply (IH (String.length r)); [simpl in Hn; lia | done]. }
  destruct r as [|d r2].
  { rewrite append_nil. destruct t as [|d t']; [done|].
    rewrite space2_ascii by eauto.
    destruct t' as [|e t'']; [done|].
    rewrite space3_ascii by eauto. done. }
  rewrite append_cons.
  destruct (strings.space2 c d) eqn:H2.
  { apply (IH (String.length r2)); [simpl in Hn; lia | done]. }
  destruct r2 as [|e r3].
  { rewrite append_nil. destruct t as [|e t']; [done|].
    rewrite space3_ascii by eauto. done. }
  rewrite append_cons.
  destruct (strings.space3 c d e) eqn:H3.
  { apply (IH (String.length r3)); [simpl in Hn; lia | done]. }
  done.
Qed.

Lemma TrimLeftSpace_rev_allSpace (t x : string) :
  allSpace t = true ->
  strings.TrimLeftSpace_rev (String.rev_app t x) = strings.TrimLeftSpace_rev x.
Proof.
  revert x. induction t as [|c r IH]; intros x; [done|]. simpl.
  intros [Hc Hr]%andb_true_iff. rewrite (IH _ Hr). by apply TrimLeftSpace_rev_skip.
Qed.

Lemma TrimRightSpace_append (u t : string) :
  allSpace t = true -> strings.TrimRightSpace (u +:+ t) = strings.TrimRightSpace u.
Proof.
  intros Ht. unfold strings.TrimRightSpace, String.rev.
  by rewrite rev_app_append, TrimLeftSpace_rev_allSpace.
Qed.

Lemma TrimSpace_append (s t : string) :
  allSpace t = true -> strings.TrimSpace (s +:+ t) = strings.TrimSpace s.
Proof.
  intros Ht. unfold strings.TrimSpace. rewrite (TrimLeftSpace_append _ _ Ht).
  destruct (strings.TrimLeftSpace s) as [|c u]; [done|].
  by apply TrimRightSpace_append.
Qed.


Lemma oneLine_append (a b : string) :
  oneLine a = true -> oneLine b = true -> oneLine (a +:+ b) = true.
Proof.
  intros Ha Hb. induction a as [|c a IH]; [by rewrite append_nil|].
  rewrite append_cons. simpl in *. apply andb_true_iff in Ha as [Hc Ha].
  by rewrite Hc, IH.
Qed.

Lemma allSpace_append (a b : string) :
  allSpace a = true -> allSpace b = true -> allSpace (a +:+ b) = true.
Proof.
  intros Ha Hb. induction a as [|c a IH]; [by rewrite append_nil|].
  rewrite append_cons. simpl in *. apply andb_true_iff in Ha as [Hc Ha].
  by rewrite Hc, IH.
Qed.

Lemma lines_joinLines (pad : string) (ls : list string) :
  oneLine pad = true ->
  Forall (fun l => oneLine l = true) ls ->
  bufio.lines (joinLines (pad +:+ String strings.LF EmptyString) ls)
  = (map (fun l => l +:+ pad +:+ String strings.LF EmptyString) ls, EmptyString).
Proof.
  intros Hpad Hls. induction Hls as [|l ls Hl _ IH]; [done|].
  simpl joinLines.
  replace (l +:+ (pad +:+ String strings.LF EmptyString)
             +:+ joinLines (pad +:+ String strings.LF EmptyString) ls)
    with ((l +:+ pad) +:+ String strings.LF
             (joinLines (pad +:+ String strings.LF EmptyString) ls)).
  2:{ rewrite !append_assoc. by rewrite append_cons, append_nil. }
  rewrite lines_line by by apply oneLine_append.
  rewrite IH. simpl. by rewrite !append_assoc.
Qed.

Section LineEndings.

Context {P : Type} `{!json.Unmarshaler P}.

Lemma handleLine_trailing_space (l t : string) :
  allSpace t = true -> handleLine (P := P) (l +:+ t) = handleLine l.
Proof. intros Ht. unfold handleLine. by rewrite (TrimSpace_append _ _ Ht). Qed.

Lemma readLines_ext (f g : string -> string) (ls : list string) last :
  (forall l, handleLine (P := P) (f l) = handleLine (g l)) ->
  readLines (P := P) (map f ls) last = readLines (map g ls) last.
Proof.
  intros Hfg. induction ls as [|l ls IH]; [done|].
  simpl. rewrite Hfg. destruct (handleLine (g l)); by rewrite ?IH.
Qed.

(** X14. Lines that end with white space before the line feed, a
    carriage return as in CRLF among them, are decoded as the same
    lines ended by a line feed alone. *)
Theorem reader_line_endings (pad : string) (ls : list string)
    (failure : option string) (ctx : context.Context) :
  allSpace pad = true ->
  oneLine pad = true ->
  Forall (fun l => oneLine l = true) ls ->
  reader (P := P)
    {| io.data := joinLines (pad +:+ String strings.LF EmptyString) ls;
       io.failure := failure |} ctx
  = reader {| io.data := joinLines (String strings.LF EmptyString) ls;
              io.failure := failure |} ctx.
Proof.
  intros Hsp Hpad Hls. unfold reader. simpl.
  rewrite (lines_joinLines pad ls Hpad Hls).
  pose proof (lines_joinLines EmptyString ls eq_refl Hls) as H0.
  rewrite append_nil in H0. rewrite H0. simpl.
  apply readLines_ext. intros l.
  rewrite !handleLine_trailing_space; [done | done |].
  apply allSpace_append; done.
Qed.

End LineEndings.

(** [TestChat_Stream_Success] with one frame: a frame after the
    terminal token and a read error at the end are never seen. *)
Lemma reader_stops_at_done_witness :
  reader (P := Chunk)
    {| io.data := (helloLine +:+ LF) +:+ doneLine +:+ helloLine;
       io.failure := Some "unexpected EOF" |} context.Background
  = [hello].
Proof.
  etransitivity.
  - exact (reader_stops_at_done (P := Chunk) (helloLine +:+ LF) helloLine
             (Some "unexpected EOF") context.Background eq_refl).
  - vm_compute; reflexivity.
Defined.

(** [TestChat_Stream_MidErrorFrame]: nothing follows the error chunk. *)
Lemma reader_error_chunk_is_last_witness :
  reader (P := Chunk)
    {| io.data := midErrorStream +:+ helloLine; io.failure := None |} context.Background
  = ([hello]
     ++ StreamChunk.mk {| Choices := [] |}
          (Some (APIErr (APIError.mk 0 "PROVIDER_ERROR" "something went wrong"
                           (Some (Sentinel ErrProvider)))))
        :: [])%list
  /\ ([] : list (StreamChunk.t Chunk)) = [].
Proof.
  assert (reader (P := Chunk)
            {| io.data := midErrorStream +:+ helloLine; io.failure := None |}
            context.Background
          = ([hello]
             ++ StreamChunk.mk {| Choices := [] |}
                  (Some (APIErr (APIError.mk 0 "PROVIDER_ERROR" "something went wrong"
                                   (Some (Sentinel ErrProvider)))))
                :: [])%list) as Hreader
    by (vm_compute; reflexivity).
  assert (StreamChunk.Err
            (StreamChunk.mk {| Choices := [] |}
               (Some (APIErr (APIError.mk 0 "PROVIDER_ERROR" "something went wrong"
                                (Some (Sentinel ErrProvider))))))
          <> None) as Herr by discriminate.
  split; [exact Hreader|].
  exact (reader_error_chunk_is_last (P := Chunk) _ _ _ _ _ Hreader Herr).
Defined.

(** The error frame of [TestChat_Stream_MidErrorFrame]: the chunk
    carries the API Error of the payload, which matches
    [ErrProvider], and the frame after it is not read. *)
Lemma handleLine_error_frame_witness :
  (handleLine (P := Chunk) ("data: " +:+ providerErrorPayload +:+ LF)
   = Final (StreamChunk.mk {| Choices := [] |}
              (Some (APIErr (APIError.mk 0 "PROVIDER_ERROR" "something went wrong"
                               (Some (Sentinel ErrProvider)))))))
  /\ readLines (P := Chunk) ["data: " +:+ providerErrorPayload +:+ LF; helloLine] []
     = [StreamChunk.mk {| Choices := [] |}
          (Some (APIErr (APIError.mk 0 "PROVIDER_ERROR" "something went wrong"
                           (Some (Sentinel ErrProvider)))))]
  /\ errors.Is
       (APIErr (APIError.mk 0 "PROVIDER_ERROR" "something went wrong"
                  (Some (Sentinel ErrProvider))))
       (Sentinel ErrProvider) = true.
Proof.
  assert (strings.TrimSpace ("data: " +:+ providerErrorPayload +:+ LF)
          = "data: " +:+ providerErrorPayload) as Htrim
    by (vm_compute; reflexivity).
  assert (providerErrorPayload <> "[DONE]") as Hdone by discriminate.
  assert (strings.Contains providerErrorPayload errorMarker = true) as Hmarker
    by (vm_compute; reflexivity).
  assert (json.Unmarshal (T := APIError.t) providerErrorPayload
          = Ok (APIError.mk 0 "PROVIDER_ERROR" "something went wrong" None)) as Hdec
    by (vm_compute; reflexivity).
  pose proof (handleLine_error_frame (P := Chunk)
                ("data: " +:+ providerErrorPayload +:+ LF) providerErrorPayload
                (APIError.mk 0 "PROVIDER_ERROR" "something went wrong" None)
                Htrim Hdone Hmarker Hdec) as [Hline Hlines].
  split_and!.
  - etransitivity; [exact Hline | vm_compute; reflexivity].
  - etransitivity; [exact (Hlines [helloLine] []) | vm_compute; reflexivity].
  - vm_compute; reflexivity.
Defined.

(** [TestChat_Stream_Success] with one frame, its lines ended by CRLF. *)
Lemma reader_line_endings_witness :
  reader (P := Chunk)
    {| io.data := joinLines (CR +:+ LF) ["data: " +:+ helloPayload; ""; "data: [DONE]"];
       io.failure := None |} context.Background
  = [hello].
Proof.
  assert (Forall (fun l => oneLine l = true)
            ["data: " +:+ helloPayload; ""; "data: [DONE]"]) as Hlines
    by (repeat constructor).
  etransitivity.
  - exact (reader_line_endings (P := Chunk) CR
             ["data: " +:+ helloPayload; ""; "data: [DONE]"] None context.Background
             eq_refl eq_refl Hlines).
  - vm_compute; reflexivity.
Defined.

(** ** More of the goroutine, the watcher and the consumer *)

Section Goroutines.

Context {P : Type} `{!json.Unmarshaler P}.

Implicit Types (s : state (P := P)) (e : ending).

Lemma step_cancelled l s s' : step l s s' -> cancelled s = true -> cancelled s' = true.
Proof.
  intros Hstep Hc.
  destruct Hstep as [s | s Hc' Hw | s line ls Hrd Hpend | s failure Hrd Hfail
                    | s chunk again Hrd]; try done.
  - unfold afterLine. by destruct (handleLine line).
  - unfold afterFailure. by destruct (readFailed _ _).
  - unfold afterReceive. by destruct again.
Qed.

Lemma exited_closed_from s s' :
  reachable s s' ->
  (rd s = Exited -> closed s = true /\ chanClosed s = true) ->
  rd s' = Exited -> closed s' = true /\ chanClosed s' = true.
Proof.
  intros Hreach Hs. induction Hreach as [|s1 s2 l _ IH Hstep]; [done|].
  destruct Hstep as [s1 | s1 Hc' Hw | s1 line ls Hrd Hpend | s1 failure Hrd Hfail
                    | s1 chunk again Hrd].
  - exact IH.
  - simpl. intros Hex. by destruct (IH Hex).
  - unfold afterLine. by destruct (handleLine line).
  - unfold afterFailure. by destruct (readFailed _ _).
  - unfold afterReceive. by destruct again.
Qed.

Lemma exited_closed body e s :
  reachable (start body e) s -> rd s = Exited -> closed s = true /\ chanClosed s = true.
Proof. intros Hreach. by apply (exited_closed_from _ _ Hreach). Qed.

(** X16. The channel is closed once and for all: in a state a stream
    can reach with the channel closed, the body is closed too, and
    whatever happens next, a late cancellation and the watcher
    included, the consumer receives nothing more and the channel and
    the body stay closed. *)
Theorem closed_channel_is_final (body : list string) (e : ending) s :
  reachable (start body e) s ->
  chanClosed s = true ->
  closed s = true
  /\ forall l s', step l s s' ->
       received s' = received s /\ chanClosed s' = true /\ closed s' = true.
Proof.
  intros Hreach Hchan.
  pose proof (invariant_reachable _ _ _ Hreach) as (_ & _ & Hiff & _).
  apply Hiff in Hchan as Hex.
  destruct (exited_closed _ _ _ Hreach Hex) as [Hcl _]. split; [done|].
  intros l s' Hstep.
  destruct Hstep as [s | s Hc' Hw | s line ls Hrd Hpend | s failure Hrd Hfail
                    | s chunk again Hrd]; try congruence; done.
Qed.

(** X17. A send waits for the consumer: while the goroutine offers a
    chunk on the unbuffered channel, a cancellation and the closing of
    the body by the watcher leave it in the send; the channel is not
    closed and nothing is received until the consumer takes the
    chunk. *)
Theorem send_waits_for_the_consumer s (chunk : StreamChunk.t P) (again : bool) l s' :
  rd s = Sending chunk again ->
  step l s s' ->
  l <> Receives ->
  rd s' = Sending chunk again /\ received s' = received s /\ chanClosed s' = chanClosed s.
Proof.
  intros Hrd Hstep Hl.
  destruct Hstep as [s | s Hc' Hw | s line ls Hrd' Hpend | s failure Hrd' Hfail
                    | s chunk' again' Hrd']; try congruence; done.
Qed.

Lemma reading_can_finish s :
  rd s = Reading ->
  (exists failure, bodyEnd s = Ends failure) \/ cancelled s = true ->
  exists s', reachable s s' /\ rd s' = Exited /\ chanClosed s' = true /\ closed s' = true.
Proof.
  intros Hrd Hmay.
  destruct (cancelled s) eqn:Hc.
  - exists (exits s). split; [|done].
    eapply reach_step; [apply reach_start|].
    pose proof (step_fail s _ Hrd (fail_cancelled s Hc)) as Hstep.
    unfold afterFailure in Hstep. by rewrite readFailed_cancelled in Hstep.
  - destruct Hmay as [[failure Hend]|]; [|done].
    destruct (run_to_the_end (pending s) failure s) as (s' & Hr & Hex & Hch & _);
      try done.
    exists s'. split_and!; try done.
    apply (exited_closed_from _ _ Hr); [by rewrite Hrd | done].
Qed.

(** X19. The goroutine can always come to its end: from every state
    a stream can reach, if the body ends or the context is cancelled,
    there is a run in which the goroutine exits, with the channel and
    the body closed. *)
Theorem stream_can_finish (body : list string) (e : ending) s :
  reachable (start body e) s ->
  (exists failure, bodyEnd s = Ends failure) \/ cancelled s = true ->
  exists s', reachable s s' /\ rd s' = Exited /\ chanClosed s' = true /\ closed s' = true.
Proof.
  intros Hreach Hmay. destruct (rd s) as [|chunk [|]|] eqn:Hrd.
  - by apply reading_can_finish.
  - destruct (reading_can_finish (afterReceive s chunk true)) as (s' & Hr & Hrest);
      [done | done |].
    exists s'. split; [|done].
    eapply reachable_trans; [|exact Hr].
    eapply reach_step; [apply reach_start | by apply step_receive].
  - exists (afterReceive s chunk false). split; [|done].
    eapply reach_step; [apply reach_start | by apply step_receive].
  - exists s. destruct (exited_closed _ _ _ Hreach Hrd). split_and!; try done.
    apply reach_start.
Qed.

Lemma step_not_cancelled l s s' : step l s s' -> cancelled s' = false -> cancelled s = false.
Proof.
  intros Hstep Hc. destruct (cancelled s) eqn:Hs; [|done].
  by rewrite (step_cancelled _ _ _ Hstep Hs) in Hc.
Qed.

(** X15. When the context is never cancelled, every run of the
    goroutine, the watcher and the consumer that ends with the
    goroutine's exit has delivered the chunks of [reader], all of
    them and in their order. *)
Theorem uncancelled_stream_delivers (body : io.Body) s :
  reachable (start (bufio.lines (io.data body)).1 (Ends (io.failure body))) s ->
  rd s = Exited ->
  cancelled s = false ->
  received s = reader body context.Background.
Proof.
  change (reader body context.Background)
    with (uncancelled (P := P) (bufio.lines (io.data body)).1 (Ends (io.failure body))).
  generalize (bufio.lines (io.data body)).1 (Ends (io.failure body)).
  intros ls e Hreach. induction Hreach as [|s s' l Hreach IH Hstep]; [done|].
  intros Hex Hc.
  pose proof (step_not_cancelled _ _ _ Hstep Hc) as Hc0.
  pose proof (invariant_reachable _ _ _ Hreach) as (Hend & Hclosed & Hchan & Hout).
  clear IH. revert Hex.
  destruct Hstep as [s | s Hc' Hw | s line ls' Hrd Hpend | s failure Hrd Hfail
                    | s chunk again Hrd].
  - done.
  - congruence.
  - rewrite Hrd, Hpend in Hout. simpl in Hout.
    unfold afterLine. destruct (handleLine line); simpl; try done.
    intros _. by rewrite app_nil_r in Hout.
  - rewrite Hrd in Hout, Hclosed.
    unfold afterFailure. rewrite (readFailed_not_cancelled _ _ Hc0).
    destruct Hfail as [failure Hpend Hbody | Hcl | Hcan].
    + rewrite Hpend in Hout. rewrite <- Hend, Hbody in Hout |- *. unfold lastTurn in Hout.
      simpl readLines in Hout.
      destruct (readFailed context.Background failure); [|done].
      simpl. intros _. rewrite app_nil_r in Hout. congruence.
    + destruct (Hclosed Hcl); congruence.
    + congruence.
  - rewrite Hrd in Hout. unfold afterReceive.
    destruct again; simpl; done.
Qed.

End Goroutines.

(** A run of [TestChat_Stream_Success] with one frame: the line is
    read, the chunk received, the body ends and the goroutine exits. *)
Lemma delivered_reachable : reachable (start [helloLine] (Ends None)) delivered.
Proof.
  eapply (reach_step _ _ _ (ReadFails None)).
  2:{ replace delivered
        with (afterFailure {| cancelled := false; closed := false; watching := true;
                              pending := []; bodyEnd := Ends None; rd := Reading;
                              received := [hello]; chanClosed := false |} None)
        by (vm_compute; reflexivity).
      apply step_fail; [reflexivity | by apply (fail_end _ None)]. }
  eapply (reach_step _ _ _ Receives).
  2:{ apply (step_receive {| cancelled := false; closed := false; watching := true;
                             pending := []; bodyEnd := Ends None;
                             rd := Sending hello true;
                             received := []; chanClosed := false |} hello true).
      reflexivity. }
  eapply (reach_step _ _ _ (ReadsLine helloLine)); [apply reach_start|].
  replace {| cancelled := false; closed := false; watching := true;
             pending := []; bodyEnd := Ends None; rd := Sending hello true;
             received := []; chanClosed := false |}
    with (afterLine (start [helloLine] (Ends None)) helloLine [])
    by (vm_compute; reflexivity).
  by apply step_line.
Qed.

Lemma uncancelled_stream_delivers_witness :
  received delivered
  = reader {| io.data := helloLine; io.failure := None |} context.Background.
Proof.
  exact (uncancelled_stream_delivers {| io.data := helloLine; io.failure := None |}
           delivered delivered_reachable eq_refl eq_refl).
Defined.

Lemma closed_channel_is_final_witness :
  closed delivered = true
  /\ forall l s', step l delivered s' ->
       received s' = received delivered /\ chanClosed s' = true /\ closed s' = true.
Proof.
  exact (closed_channel_is_final [helloLine] (Ends None) delivered
           delivered_reachable eq_refl).
Defined.

(** The context is cancelled while the goroutine offers a chunk: the
    watcher closes the body, and the goroutine is still in the send. *)
Lemma send_waits_for_the_consumer_witness :
  step WatcherCloses sending
    {| cancelled := true; closed := true; watching := false;
       pending := []; bodyEnd := Stalls; rd := Sending hello true;
       received := []; chanClosed := false |}
  /\ rd {| cancelled := true; closed := true; watching := false;
           pending := []; bodyEnd := Stalls; rd := Sending hello true;
           received := []; chanClosed := false |} = Sending hello true
  /\ received {| cancelled := true; closed := true; watching := false;
                 pending := []; bodyEnd := Stalls; rd := Sending hello true;
                 received := []; chanClosed := false |} = received sending
  /\ chanClosed {| cancelled := true; closed := true; watching := false;
                   pending := []; bodyEnd := Stalls; rd := Sending hello true;
                   received := []; chanClosed := false |} = chanClosed sending.
Proof.
  assert (step WatcherCloses sending
            {| cancelled := true; closed := true; watching := false;
               pending := []; bodyEnd := Stalls; rd := Sending hello true;
               received := []; chanClosed := false |}) as Hstep
    by exact (step_watcher sending eq_refl eq_refl).
  assert (WatcherCloses <> Receives) as Hlabel by discriminate.
  split; [exact Hstep|].
  exact (send_waits_for_the_consumer sending hello true WatcherCloses _
           eq_refl Hstep Hlabel).
Defined.

(** [TestChat_Stream_ContextCancel]: once the context is cancelled the
    stalled stream can close its channel. *)
Lemma stream_can_finish_witness :
  exists s', reachable (stalled true) s'
             /\ rd s' = Exited /\ chanClosed s' = true /\ closed s' = true.
Proof.
  assert ((exists failure, bodyEnd (stalled true) = Ends failure)
          \/ cancelled (stalled true) = true) as Hmay
    by (right; reflexivity).
  exact (stream_can_finish [helloLine; LF] Stalls (stalled true) stalled_reachable Hmay).
Defined.
